(** * separate-point-sets: QuickHull and hull-based displacement

    A shallow embedding of [separate-point-sets.js].

    - JavaScript numbers are IEEE-754 binary64 values: they are modelled by
      Rocq's primitive [float], whose operations are specified by
      [FloatAxioms] against [SpecFloat].
    - Point objects are mutable and shared (hull edges hold the caller's
      objects, [displacePoints] updates them in place): they live in a
      [store] and are named by references ([loc]).
    - A call either returns, throws (reading a property of [null] or
      [undefined]) or, in the model only, runs out of recursion fuel. *)

From Stdlib Require Import List Bool Arith Lia ZArith Floats.
Import ListNotations.

Open Scope float_scope.

(** ** Data model *)

(** A point object: the [x] and [y] properties. *)
Record Point : Set := mkPoint { x : float; y : float }.

(** References to point objects, and the heap that holds them. *)
Definition loc := nat.
Definition store := loc -> Point.

(** [o.x = vx; o.y = vy] on the object behind [l]. *)
Definition upd (h : store) (l : loc) (p : Point) : store :=
  fun l' => if Nat.eqb l' l then p else h l'.

(** An edge or base line: the two-element array [[p0, p1]] of references. *)
Definition Edge : Set := (loc * loc)%type.

(** ** Outcomes of a call *)

Inductive exn : Set := TypeError.

Inductive outcome (A : Type) : Type :=
| Returns (a : A)
| Throws (e : exn)
| OutOfFuel.

Arguments Returns {A} a.
Arguments Throws {A} e.
Arguments OutOfFuel {A}.

Definition bind {A B : Type} (c : outcome A) (k : A -> outcome B) : outcome B :=
  match c with
  | Returns a => k a
  | Throws e => Throws e
  | OutOfFuel => OutOfFuel
  end.

Notation "v <- c ;; k" := (bind c (fun v => k))
  (at level 61, c at next level, right associativity).

(** ** JavaScript coercions on numbers *)

(** [!v] for a variable that holds a number or [undefined]/[null]:
    [undefined], [null], [0], [-0] and [NaN] are falsy. *)
Definition falsy (v : option float) : bool :=
  match v with
  | None => true
  | Some f => (f =? 0) || is_nan f
  end.

(** [a > v] where [v] may still be [undefined] (then the comparison is with
    [NaN] and is false). *)
Definition gt_maybe (a : float) (v : option float) : bool :=
  match v with
  | None => false
  | Some b => b <? a
  end.

(** [a < v], likewise. *)
Definition lt_maybe (a : float) (v : option float) : bool :=
  match v with
  | None => false
  | Some b => a <? b
  end.

(** [ToNumber] of a number-or-[null] operand of an arithmetic operator. *)
Definition toNumber (v : option float) : float :=
  match v with
  | None => 0
  | Some f => f
  end.

(** An array [length] as a number (array lengths are below [2^32]). *)
Definition lengthNum {A : Type} (l : list A) : float :=
  of_uint63 (Uint63.of_Z (Z.of_nat (length l))).

(** A value that is a zero of either sign or [NaN]: never [> 0]. *)
Definition zeroOrNaN (z : spec_float) : bool :=
  match z with
  | S754_nan | S754_zero _ => true
  | _ => false
  end.

(** A number of sign [s] (a zero, an infinity or a finite number). *)
Definition signedAs (s : bool) (z : spec_float) : bool :=
  match z with
  | S754_zero s' | S754_infinity s' | S754_finite s' _ _ => Bool.eqb s s'
  | S754_nan => false
  end.

(** Anything but [NaN]. *)
Definition notNaN (z : spec_float) : bool :=
  match z with
  | S754_nan => false
  | _ => true
  end.

(** A zero or a finite number. *)
Definition finiteSF (z : spec_float) : bool :=
  match z with
  | S754_zero _ | S754_finite _ _ _ => true
  | _ => false
  end.

(** ** getConvexHull *)

Section Hull.

Variable h : store.

(** The loop body's [distance] in [findMostDistantPointFromBaseLine]. *)
Definition baseLineDistance (baseLine : Edge) (pt : loc) : float :=
  let Vy := (h (snd baseLine)).(x) - (h (fst baseLine)).(x) in
  let Vx := (h (fst baseLine)).(y) - (h (snd baseLine)).(y) in
  Vx * ((h pt).(x) - (h (fst baseLine)).(x))
  + Vy * ((h pt).(y) - (h (fst baseLine)).(y)).

(** The object returned by [findMostDistantPointFromBaseLine]. *)
Record MostDistant : Set :=
  { maxPoint : option loc; newPoints : list loc }.

(** The [for] loop of [findMostDistantPointFromBaseLine], from the current
    values of [maxD], [maxPt] and [newPoints]. *)
Fixpoint findMostDistantLoop (baseLine : Edge) (points : list loc)
    (maxD : float) (maxPt : option loc) (acc : list loc) : MostDistant :=
  match points with
  | [] => {| maxPoint := maxPt; newPoints := acc |}
  | pt :: rest =>
      let distance := baseLineDistance baseLine pt in
      if 0 <? distance then
        if maxD <? distance
        then findMostDistantLoop baseLine rest distance (Some pt) (acc ++ [pt])
        else findMostDistantLoop baseLine rest maxD maxPt (acc ++ [pt])
      else findMostDistantLoop baseLine rest maxD maxPt acc
  end.

Definition findMostDistantPointFromBaseLine (baseLine : Edge)
    (points : list loc) : MostDistant :=
  findMostDistantLoop baseLine points 0 None [].

(** [buildConvexHull]: the recursion is on the list of outside points,
    which is not structurally smaller; [fuel] bounds the recursion depth
    and [None] means it ran out. *)
Fixpoint buildConvexHull (fuel : nat) (baseLine : Edge) (points : list loc)
    : option (list Edge) :=
  match fuel with
  | O => None
  | S fuel' =>
      let convexHullBaseLines : list Edge := [] in
      let t := findMostDistantPointFromBaseLine baseLine points in
      match t.(maxPoint) with
      | Some mp =>
          match buildConvexHull fuel' (fst baseLine, mp) t.(newPoints) with
          | None => None
          | Some r1 =>
              let convexHullBaseLines := convexHullBaseLines ++ r1 in
              match buildConvexHull fuel' (mp, snd baseLine) t.(newPoints) with
              | None => None
              | Some r2 =>
                  let convexHullBaseLines := convexHullBaseLines ++ r2 in
                  Some convexHullBaseLines
              end
          end
      | None => Some [baseLine]
      end
  end.

(** The variables of the main body of [getConvexHull]; [None] is
    [undefined]. *)
Record Scan : Set :=
  { maxX : option float; minX : option float;
    maxPt : option loc; minPt : option loc;
    ptsArray : list loc }.

Definition scanInit : Scan :=
  {| maxX := None; minX := None; maxPt := None; minPt := None;
     ptsArray := [] |}.

(** One iteration of [for (var idx in points)]. *)
Definition scanStep (s : Scan) (pt : loc) : Scan :=
  let s1 :=
    {| maxX := s.(maxX); minX := s.(minX); maxPt := s.(maxPt);
       minPt := s.(minPt); ptsArray := s.(ptsArray) ++ [pt] |} in
  let s2 :=
    if gt_maybe (h pt).(x) s1.(maxX) || falsy s1.(maxX)
    then {| maxX := Some (h pt).(x); minX := s1.(minX); maxPt := Some pt;
            minPt := s1.(minPt); ptsArray := s1.(ptsArray) |}
    else s1 in
  if lt_maybe (h pt).(x) s2.(minX) || falsy s2.(minX)
  then {| maxX := s2.(maxX); minX := Some (h pt).(x); maxPt := s2.(maxPt);
          minPt := Some pt; ptsArray := s2.(ptsArray) |}
  else s2.

(** "find first baseline": the whole scan over the input collection, in
    its iteration order. *)
Definition findFirstBaseline (points : list loc) : Scan :=
  fold_left scanStep points scanInit.

(** Reading [baseLine[i].x] when a base line end is [undefined] throws. *)
Definition baseLineOf (p0 p1 : option loc) : outcome Edge :=
  match p0, p1 with
  | Some a, Some b => Returns (a, b)
  | _, _ => Throws TypeError
  end.

Definition withFuel {A : Type} (r : option A) : outcome A :=
  match r with
  | Some a => Returns a
  | None => OutOfFuel
  end.

(** [getConvexHull]. In "build hull" the value of [ch.concat(...)] is not
    stored: both recursions run and [ch] is returned as it was created.
    Fuel above the number of points is always enough, and more fuel never
    changes a result ([buildConvexHull_returns],
    [buildConvexHull_fuel_mono]). *)
Definition getConvexHull (points : list loc) : outcome (list Edge) :=
  let s := findFirstBaseline points in
  let ch : list Edge := [] in
  if (3 <=? length s.(ptsArray))%nat then
    let fuel := S (length s.(ptsArray)) in
    b1 <- baseLineOf s.(minPt) s.(maxPt) ;;
    r1 <- withFuel (buildConvexHull fuel b1 s.(ptsArray)) ;;
    b2 <- baseLineOf s.(maxPt) s.(minPt) ;;
    r2 <- withFuel (buildConvexHull fuel b2 s.(ptsArray)) ;;
    let _discarded := ch ++ r1 ++ r2 in
    Returns ch
  else Returns ch.

End Hull.

(** ** displacePoints *)

Section Separator.

(** The heap as it is when [displacePoints] is entered. Every read of a
    coordinate happens before the first write (the final loop), so the
    inner functions read from [h]. Points built by object literals
    ([pp2], the centroid, ...) and the arguments [pt1] and [pt2], which are
    only read, are carried as [Point] values. *)
Variable h : store.

(** The object returned by [checkLineIntersection]; its [x] and [y] start
    as [null]. *)
Record Intersection : Set :=
  { ix : option float; iy : option float; onLine1 : bool; onLine2 : bool }.

Definition denominator (line1Start line1End line2Start line2End : Point)
    : float :=
  ((line2End.(y) - line2Start.(y)) * (line1End.(x) - line1Start.(x)))
  - ((line2End.(x) - line2Start.(x)) * (line1End.(y) - line1Start.(y))).

Definition checkLineIntersection
    (line1Start line1End line2Start line2End : Point) : Intersection :=
  let result :=
    {| ix := None; iy := None; onLine1 := false; onLine2 := false |} in
  let denominator := denominator line1Start line1End line2Start line2End in
  if denominator =? 0 then result
  else
    let a := line1Start.(y) - line2Start.(y) in
    let b := line1Start.(x) - line2Start.(x) in
    let numerator1 :=
      ((line2End.(x) - line2Start.(x)) * a)
      - ((line2End.(y) - line2Start.(y)) * b) in
    let numerator2 :=
      ((line1End.(x) - line1Start.(x)) * a)
      - ((line1End.(y) - line1Start.(y)) * b) in
    let a := 1 * numerator1 / denominator in
    let b := 1 * numerator2 / denominator in
    {| ix := Some (line1Start.(x) + (a * (line1End.(x) - line1Start.(x))));
       iy := Some (line1Start.(y) + (a * (line1End.(y) - line1Start.(y))));
       onLine1 := (0 <? a) && (a <? 1);
       onLine2 := (0 <? b) && (b <? 1) |}.

Definition sqr (v : float) : float := v * v.

Definition dist2 (pt1 pt2 : Point) : float :=
  sqr (pt1.(x) - pt2.(x)) + sqr (pt1.(y) - pt2.(y)).

Definition distToSegmentSquared (pt v1 v2 : Point) : float :=
  let l2 := dist2 v1 v2 in
  if l2 =? 0 then dist2 pt v1
  else
    let t :=
      ((pt.(x) - v1.(x)) * (v2.(x) - v1.(x))
       + (pt.(y) - v1.(y)) * (v2.(y) - v1.(y))) / l2 in
    if t <? 0 then dist2 pt v1
    else if 1 <? t then dist2 pt v2
    else dist2 pt {| x := v1.(x) + t * (v2.(x) - v1.(x));
                     y := v1.(y) + t * (v2.(y) - v1.(y)) |}.

Definition distToSegment (pt v1 v2 : Point) : float :=
  sqrt (distToSegmentSquared pt v1 v2).

(** The two-level loop of [findMostDistantPointFromLine], flattened: the
    inner loop visits [convexHull[idx][0]] and then [convexHull[idx][1]]. *)
Fixpoint findMostDistantFromLineLoop (linePt1 linePt2 : Point)
    (pts : list loc) (maxD : float) (maxPt : option loc) : option loc :=
  match pts with
  | [] => maxPt
  | pt :: rest =>
      let Vy := linePt2.(x) - linePt1.(x) in
      let Vx := linePt1.(y) - linePt2.(y) in
      let distance :=
        Vx * ((h pt).(x) - linePt1.(x)) + Vy * ((h pt).(y) - linePt1.(y)) in
      if (0 <? distance) && (maxD <? distance)
      then findMostDistantFromLineLoop linePt1 linePt2 rest distance (Some pt)
      else findMostDistantFromLineLoop linePt1 linePt2 rest maxD maxPt
  end.

Definition endpoints (convexHull : list Edge) : list loc :=
  flat_map (fun e : Edge => [fst e; snd e]) convexHull.

Definition findMostDistantPointFromLine (linePt1 linePt2 : Point)
    (convexHull : list Edge) : option loc :=
  findMostDistantFromLineLoop linePt1 linePt2 (endpoints convexHull) 0 None.

(** The result of the two distance-vector searches. *)
Record Displacement : Set := { vector : Point; edge : Edge }.

(** The search loop of [minDistanceVector], from index [i]. *)
Fixpoint minDistLoop (pt : Point) (es : list Edge) (i : nat)
    (minDist : option float) (minDistIndex : option nat)
    : option float * option nat :=
  match es with
  | [] => (minDist, minDistIndex)
  | e :: rest =>
      let tmpDist := distToSegment pt (h (fst e)) (h (snd e)) in
      if (match minDist with None => true | Some _ => false end)
         || lt_maybe tmpDist minDist
      then minDistLoop pt rest (S i) (Some tmpDist) (Some i)
      else minDistLoop pt rest (S i) minDist minDistIndex
  end.

(** [convexHull[i]], whose properties are then read. *)
Definition edgeAt (convexHull : list Edge) (i : option nat) : outcome Edge :=
  match i with
  | Some n =>
      match nth_error convexHull n with
      | Some e => Returns e
      | None => Throws TypeError
      end
  | None => Throws TypeError
  end.

Definition minDistanceVector (convexHull : list Edge) (pt : Point)
    : outcome (option Displacement) :=
  let '(minDist, minDistIndex) := minDistLoop pt convexHull 0 None None in
  match minDist with
  | Some _ =>
      e <- edgeAt convexHull minDistIndex ;;
      let dx := (h (fst e)).(x) - (h (snd e)).(x) in
      let dy := (h (fst e)).(y) - (h (snd e)).(y) in
      let pp2 := {| x := pt.(x) + dy; y := pt.(y) - dx |} in
      let intersectionData :=
        checkLineIntersection pt pp2 (h (fst e)) (h (snd e)) in
      Returns (Some
        {| vector := {| x := toNumber intersectionData.(ix) - pt.(x);
                        y := toNumber intersectionData.(iy) - pt.(y) |};
           edge := (fst e, snd e) |})
  | None => Returns None
  end.

Definition sameSign (a b : float) : bool :=
  ((a <? 0) && (b <? 0)) || ((0 <=? a) && (0 <=? b)).

Definition sameDirection (pt11 pt12 pt21 pt22 : Point) : bool :=
  sameSign (pt12.(x) - pt11.(x)) (pt22.(x) - pt21.(x))
  && sameSign (pt12.(y) - pt11.(y)) (pt22.(y) - pt21.(y)).

(** [intersectionData] passed where a point is expected: its [x] and [y]
    are operands of subtractions. *)
Definition asPoint (r : Intersection) : Point :=
  {| x := toNumber r.(ix); y := toNumber r.(iy) |}.

(** The test of the [if] in [minDistanceVectorInDirection]: edge [e] is
    crossed by the ray from [pt] through [v]. *)
Definition rayCrossesEdge (pt v : Point) (e : Edge) : bool :=
  let intersectionData :=
    checkLineIntersection pt v (h (fst e)) (h (snd e)) in
  intersectionData.(onLine2)
  && sameDirection pt v pt (asPoint intersectionData).

(** The loop of [minDistanceVectorInDirection] over the edges still to
    visit; [convexHull] is the whole hull. *)
Fixpoint minDistInDirectionLoop (convexHull es : list Edge) (pt v : Point)
    : outcome (option Displacement) :=
  match es with
  | [] => Returns None
  | e :: rest =>
      if rayCrossesEdge pt v e then
        match findMostDistantPointFromLine pt
                {| x := pt.(x) + (v.(y) - pt.(y));
                   y := pt.(y) - (v.(x) - pt.(x)) |} convexHull with
        | Some mostDistantPoint =>
            Returns (Some
              {| vector := {| x := - pt.(x) + (h mostDistantPoint).(x);
                              y := - pt.(y) + (h mostDistantPoint).(y) |};
                 edge := (fst e, snd e) |})
        | None => Throws TypeError
        end
      else minDistInDirectionLoop convexHull rest pt v
  end.

Definition minDistanceVectorInDirection (convexHull : list Edge)
    (pt v : Point) : outcome (option Displacement) :=
  minDistInDirectionLoop convexHull convexHull pt v.

(** "if pt1 is false-y, use center of ptsFixed": the mean of the first end
    of every edge of [chFixed]. *)
Definition centroid (chFixed : list Edge) : Point :=
  let sum :=
    fold_left
      (fun (pt1 : Point) (e : Edge) =>
         {| x := pt1.(x) + (h (fst e)).(x);
            y := pt1.(y) + (h (fst e)).(y) |})
      chFixed {| x := 0; y := 0 |} in
  {| x := sum.(x) / lengthNum chFixed; y := sum.(y) / lengthNum chFixed |}.

(** "calculate separating axis (vector)". *)
Definition separatingAxis (d : Displacement) : Point :=
  let displacementDirection := d.(vector) in
  if negb (displacementDirection.(x) =? 0)
     || negb (displacementDirection.(y) =? 0)
  then {| x := (-1) * displacementDirection.(y);
          y := - ((-1) * displacementDirection.(x)) |}
  else
    let dx := (h (fst d.(edge))).(x) - (h (snd d.(edge))).(x) in
    let dy := (h (fst d.(edge))).(y) - (h (snd d.(edge))).(y) in
    {| x := dx; y := dy |}.

(** Lines 302-368 of [displacePoints]: from the two hulls to
    [(displace_dx, displace_dy)]. A [null] search result or a [null]
    [farthestPoint] makes the next property read throw. *)
Definition displacementOf (chFixed chDisplace : list Edge)
    (padding : option float) (pt1 pt2 : option Point)
    : outcome (float * float) :=
  let pt1 :=
    match pt1 with
    | Some p => p
    | None => centroid chFixed
    end in
  displacementDataFromFixed <-
    match pt2 with
    | None => minDistanceVector chFixed pt1
    | Some v => minDistanceVectorInDirection chFixed pt1 v
    end ;;
  match displacementDataFromFixed with
  | None => Throws TypeError
  | Some d =>
      let separatingAxisVector := separatingAxis d in
      let separatingPoint :=
        {| x := pt1.(x) + d.(vector).(x); y := pt1.(y) + d.(vector).(y) |} in
      match findMostDistantPointFromLine separatingPoint
              {| x := separatingPoint.(x) + separatingAxisVector.(x);
                 y := separatingPoint.(y) + separatingAxisVector.(y) |}
              chDisplace with
      | None => Throws TypeError
      | Some farthestPoint =>
          let vDisplace :=
            {| x := separatingPoint.(x) - (h farthestPoint).(x);
               y := separatingPoint.(y) - (h farthestPoint).(y) |} in
          let padding := if falsy padding then 0 else toNumber padding in
          let len :=
            sqrt (separatingAxisVector.(x) * separatingAxisVector.(x)
                  + separatingAxisVector.(y) * separatingAxisVector.(y)) in
          let vPadding :=
            {| x := 1 * separatingAxisVector.(y) * (padding / len);
               y := (-1) * separatingAxisVector.(x) * (padding / len) |} in
          let displace_dx := vDisplace.(x) + vPadding.(x) in
          let displace_dy := vDisplace.(y) + vPadding.(y) in
          Returns (displace_dx, displace_dy)
      end
  end.

End Separator.

(** [o.x += dx; o.y += dy] on the object behind [l]. *)
Definition translate (dx dy : float) (hh : store) (l : loc) : store :=
  upd hh l {| x := (hh l).(x) + dx; y := (hh l).(y) + dy |}.

(** "do displace points": the [for ... in] loop over [ptsToDisplace]; each
    member is updated through the heap as the loop reaches it. *)
Definition displaceAll (dx dy : float) (ptsToDisplace : list loc) (hh : store)
    : store :=
  fold_left (translate dx dy) ptsToDisplace hh.

(** The main body of [displacePoints] once both hulls are computed (from
    line 300 on). *)
Definition displaceFromHulls (h : store) (chFixed chDisplace : list Edge)
    (ptsToDisplace : list loc) (padding : option float)
    (pt1 pt2 : option Point) : outcome store :=
  if (length chFixed <? 3)%nat || (length chDisplace <? 3)%nat then Returns h
  else
    d <- displacementOf h chFixed chDisplace padding pt1 pt2 ;;
    Returns (displaceAll (fst d) (snd d) ptsToDisplace h).

(** [displacePoints(ptsFixed, ptsToDisplace, padding, pt1, pt2)]: the heap
    after the call. An omitted or falsy [padding], [pt1] or [pt2] is
    [None]. *)
Definition displacePoints (h : store) (ptsFixed ptsToDisplace : list loc)
    (padding : option float) (pt1 pt2 : option Point) : outcome store :=
  chFixed <- getConvexHull h ptsFixed ;;
  chDisplace <- getConvexHull h ptsToDisplace ;;
  displaceFromHulls h chFixed chDisplace ptsToDisplace padding pt1 pt2.

(** ** Notions used to state the properties *)

(** [pt] is "outside" [baseLine]: the test [distance > 0]. *)
Definition outside (h : store) (baseLine : Edge) (pt : loc) : bool :=
  0 <? baseLineDistance h baseLine pt.

(** The result of [checkLineIntersection] when the lines do not meet. *)
Definition noIntersection : Intersection :=
  {| ix := None; iy := None; onLine1 := false; onLine2 := false |}.

(** The point halfway between [p] and [q]; it lies on the segment from [p]
    to [q], hence in the convex hull of any set that contains both. *)
Definition midpoint (p q : Point) : Point :=
  {| x := (p.(x) + q.(x)) / 2; y := (p.(y) + q.(y)) / 2 |}.

(** Every member of [pts] has had [(dx, dy)] added to its coordinates and
    every other object is as it was: a translation of the collection. *)
Definition movedBy (dx dy : float) (pts : list loc) (h h' : store) : Prop :=
  (forall l, In l pts ->
     h' l = {| x := (h l).(x) + dx; y := (h l).(y) + dy |})
  /\ (forall l, ~ In l pts -> h' l = h l).

(** Both coordinates are finite numbers (neither [NaN] nor infinite). *)
Definition finitePoint (p : Point) : bool :=
  is_finite p.(x) && is_finite p.(y).

(** A heap whose objects [0], [1], ... are the given points. *)
Definition heapOf (pts : list Point) : store :=
  fun l => nth l pts {| x := 0; y := 0 |}.

(** Three points in general position, none with a zero coordinate. *)
Definition triangleHeap : store :=
  heapOf [ {| x := 1; y := 1 |}; {| x := 3; y := 1 |}; {| x := 2; y := 3 |} ].

(** Two points, the first with [x = 0] and the second to its left. *)
Definition leftwardHeap : store :=
  heapOf [ {| x := 0; y := 0 |}; {| x := -1; y := 1 |} ].

(** Two points that share [x = 0]. *)
Definition tiedHeap : store :=
  heapOf [ {| x := 0; y := 0 |}; {| x := 0; y := 1 |} ].

(** The squares of the concrete scenario: objects [0..3] are [ptsFixed],
    objects [4..7] are [ptsToDisplace]. *)
Definition scenarioHeap : store :=
  heapOf [ {| x := 0; y := 0 |}; {| x := 0; y := 2 |};
           {| x := 2; y := 2 |}; {| x := 2; y := 0 |};
           {| x := 1; y := 1 |}; {| x := 1; y := 2 |};
           {| x := 2; y := 1 |}; {| x := 2; y := 2 |} ].

(** A square (objects [0..3]) with a smaller square inside it (objects
    [4..7]); no coordinate is zero. *)
Definition nestedHeap : store :=
  heapOf [ {| x := 1; y := 1 |}; {| x := 5; y := 1 |};
           {| x := 5; y := 5 |}; {| x := 1; y := 5 |};
           {| x := 3; y := 3 |}; {| x := 4; y := 3 |};
           {| x := 4; y := 4 |}; {| x := 3; y := 4 |} ].

(** The boundary of the outer square of [nestedHeap], as QuickHull emits
    it, and that of the inner square. *)
Definition outerEdges : list Edge :=
  [(0, 3); (3, 2); (2, 1); (1, 0)]%nat.
Definition innerEdges : list Edge :=
  [(4, 7); (7, 6); (6, 5); (5, 4)]%nat.

(** ** Notions used to state the further properties *)

(** A scan that keeps one member and replaces it only by a member whose key
    is strictly [better]: what each of the selection loops computes. *)
Fixpoint bestLoop {A : Type} (better : float -> float -> bool)
    (key : A -> float) (l : list A) (cur : option A) : option A :=
  match l with
  | [] => cur
  | a :: rest =>
      match cur with
      | None => bestLoop better key rest (Some a)
      | Some c =>
          if better (key a) (key c)
          then bestLoop better key rest (Some a)
          else bestLoop better key rest cur
      end
  end.

(** [greater n o]: the new key [n] beats the old key [o] in a search for a
    maximum ([n > o]); [smaller n o]: in a search for a minimum ([n < o]). *)
Definition greater (n o : float) : bool := o <? n.
Definition smaller (n o : float) : bool := n <? o.

(** The [distance] of [findMostDistantPointFromLine] for a point [p]. *)
Definition lineDistance (linePt1 linePt2 p : Point) : float :=
  let Vy := linePt2.(x) - linePt1.(x) in
  let Vx := linePt1.(y) - linePt2.(y) in
  Vx * (p.(x) - linePt1.(x)) + Vy * (p.(y) - linePt1.(y)).

(** The [tmpDist] of [minDistanceVector] for an edge. *)
Definition segmentDistance (h : store) (pt : Point) (e : Edge) : float :=
  distToSegment pt (h (fst e)) (h (snd e)).

(** The second argument of [findMostDistantPointFromLine] in
    [minDistanceVectorInDirection]: [pt] moved by [(pt, v)] turned by a
    quarter. *)
Definition quarterTurn (pt v : Point) : Point :=
  {| x := pt.(x) + (v.(y) - pt.(y)); y := pt.(y) - (v.(x) - pt.(x)) |}.

(** Following the edges [es] from [a], each starting where the previous one
    ended; the end reached, if they do chain. *)
Fixpoint pathFrom (a : loc) (es : list Edge) : option loc :=
  match es with
  | [] => Some a
  | e :: rest => if Nat.eqb (fst e) a then pathFrom (snd e) rest else None
  end.

(** [(dx, dy)] added [k] times to [p], one addition after the other. *)
Fixpoint addTimes (k : nat) (dx dy : float) (p : Point) : Point :=
  match k with
  | O => p
  | S k' => addTimes k' dx dy {| x := p.(x) + dx; y := p.(y) + dy |}
  end.

(** [x] is neither [0] nor [NaN]: the tests [!maxX] and [!minX] fail on
    it. *)
Definition truthyX (h : store) (p : loc) : bool :=
  negb (falsy (Some (h p).(x))).

(** The reference point of [displacePoints]: [pt1], or the centre of
    [chFixed] when [pt1] is omitted. *)
Definition referencePoint (h : store) (chFixed : list Edge)
    (pt1 : option Point) : Point :=
  match pt1 with
  | Some p => p
  | None => centroid h chFixed
  end.

(** A square (objects [0..3]) and a smaller square below it (objects
    [4..7]): the two hulls are already apart. *)
Definition apartHeap : store :=
  heapOf [ {| x := 1; y := 1 |}; {| x := 5; y := 1 |};
           {| x := 5; y := 5 |}; {| x := 1; y := 5 |};
           {| x := 3; y := -3 |}; {| x := 4; y := -3 |};
           {| x := 4; y := -2 |}; {| x := 3; y := -2 |} ].



(** * Properties *)

(** ** Binary64 arithmetic

    Facts about the IEEE-754 specification of [-], [*] and [+] that the
    termination of QuickHull rests on; they hold for every format. *)

Section SpecFloatFacts.

Variables prec emax : Z.

Lemma binary_round_aux_opp (s : bool) (m e : Z) (l : location) :
  binary_round_aux prec emax (negb s) m e l
  = SFopp (binary_round_aux prec emax s m e l).
Proof.
  unfold binary_round_aux.
  destruct (shr_fexp prec emax m e l) as [mrs' e'].
  destruct (shr_fexp prec emax _ e' loc_Exact) as [mrs'' e''].
  destruct (shr_m mrs''); simpl; try reflexivity.
  destruct (Z.leb e'' (Z.sub emax prec)); reflexivity.
Qed.

Lemma binary_round_opp (s : bool) (m : positive) (e : Z) :
  binary_round prec emax (negb s) m e = SFopp (binary_round prec emax s m e).
Proof.
  unfold binary_round.
  destruct (shl_align m e _) as [mz ez].
  apply binary_round_aux_opp.
Qed.

Lemma binary_normalize_opp (m e : Z) :
  m <> 0%Z ->
  binary_normalize prec emax (Z.opp m) e false
  = SFopp (binary_normalize prec emax m e false).
Proof.
  destruct m as [|p|p]; simpl; intros Hm.
  - congruence.
  - apply (binary_round_opp false).
  - rewrite <- (binary_round_opp true). reflexivity.
Qed.

Lemma SFsub_diag (a : spec_float) :
  zeroOrNaN (SFsub prec emax a a) = true.
Proof.
  destruct a as [s| s| |s m e]; simpl;
    try reflexivity; try (destruct s; reflexivity).
  set (X := cond_Zopp s _).
  replace (IntDef.Z.sub X X) with 0%Z by (symmetry; apply Z.sub_diag).
  reflexivity.
Qed.

Lemma SFsub_swap (a b : spec_float) :
  SFsub prec emax b a = SFopp (SFsub prec emax a b)
  \/ (zeroOrNaN (SFsub prec emax a b) = true
      /\ zeroOrNaN (SFsub prec emax b a) = true).
Proof.
  destruct a as [sa| sa| |sa ma ea], b as [sb| sb| |sb mb eb]; simpl;
    try (auto; fail);
    try (destruct sa; simpl; auto; fail);
    try (destruct sb; simpl; auto; fail);
    try (destruct sa, sb; simpl; auto; fail).
  replace (IntDef.Z.min eb ea) with (IntDef.Z.min ea eb)
    by apply Z.min_comm.
  set (X := cond_Zopp sa _). set (Y := cond_Zopp sb _).
  destruct (Z.eq_dec (X - Y) 0) as [E|E].
  - right. replace (IntDef.Z.sub Y X) with 0%Z by (change (0 = Y - X)%Z; lia).
    replace (IntDef.Z.sub X Y) with 0%Z by (change (0 = X - Y)%Z; lia).
    simpl. auto.
  - left.
    replace (IntDef.Z.sub Y X) with (Z.opp (IntDef.Z.sub X Y))
      by (change (- (X - Y) = Y - X)%Z; lia).
    apply binary_normalize_opp; assumption.
Qed.

Lemma SFmul_comm (p q : spec_float) :
  SFmul prec emax p q = SFmul prec emax q p.
Proof.
  destruct p as [sp| sp| |sp mp ep], q as [sq| sq| |sq mq eq]; simpl;
    try reflexivity; try (rewrite xorb_comm; reflexivity).
  rewrite xorb_comm, Pos.mul_comm, Z.add_comm. reflexivity.
Qed.

Lemma SFmul_opp_l (q p : spec_float) :
  SFmul prec emax (SFopp q) p = SFopp (SFmul prec emax q p).
Proof.
  destruct q as [sq| sq| |sq mq eq], p as [sp| sp| |sp mp ep]; simpl;
    try reflexivity; try (rewrite <- negb_xorb_l; reflexivity).
  rewrite <- negb_xorb_l. apply binary_round_aux_opp.
Qed.

Lemma SFadd_opp_diag (z : spec_float) :
  zeroOrNaN (SFadd prec emax z (SFopp z)) = true.
Proof.
  destruct z as [s| s| |s m e]; simpl;
    try reflexivity; try (destruct s; reflexivity).
  set (M := Zpos _).
  replace (IntDef.Z.add (cond_Zopp s M) (cond_Zopp (negb s) M)) with 0%Z
    by (clearbody M; destruct s; unfold cond_Zopp; simpl negb;
        [change (0 = - M + M)%Z | change (0 = M + - M)%Z]; lia).
  reflexivity.
Qed.

Lemma SFmul_zeroOrNaN_r (u z : spec_float) :
  zeroOrNaN z = true -> zeroOrNaN (SFmul prec emax u z) = true.
Proof. destruct u, z; simpl; intros; congruence. Qed.

Lemma SFmul_zeroOrNaN_l (u z : spec_float) :
  zeroOrNaN z = true -> zeroOrNaN (SFmul prec emax z u) = true.
Proof. rewrite SFmul_comm. apply SFmul_zeroOrNaN_r. Qed.

Lemma SFadd_zeroOrNaN (u v : spec_float) :
  zeroOrNaN u = true -> zeroOrNaN v = true ->
  zeroOrNaN (SFadd prec emax u v) = true.
Proof.
  destruct u as [su| | |], v as [sv| | |]; simpl; intros; try congruence.
  destruct su, sv; reflexivity.
Qed.

Lemma SFltb_zeroOrNaN (s : bool) (z : spec_float) :
  zeroOrNaN z = true -> SFltb (S754_zero s) z = false.
Proof. destruct z; intros H; try discriminate H; reflexivity. Qed.

End SpecFloatFacts.

(** In [buildConvexHull([baseLine[0], maxPt], ...)] the apex [maxPt] is at
    distance [(a - b) * p + p * (b - a)] from the new base line: the two
    products cancel, or the sum is [NaN]. *)
Lemma cancel_not_positive (a b p : float) :
  (0 <? (a - b) * p + p * (b - a)) = false.
Proof.
  rewrite ltb_spec, add_spec, !mul_spec, !sub_spec.
  apply SFltb_zeroOrNaN.
  unfold SF64add, SF64mul, SF64sub.
  destruct (SFsub_swap prec emax (Prim2SF a) (Prim2SF b)) as [E|[Ha Hb]].
  - rewrite E, (SFmul_comm _ _ (Prim2SF p)), SFmul_opp_l.
    apply SFadd_opp_diag.
  - apply SFadd_zeroOrNaN.
    + apply SFmul_zeroOrNaN_l, Ha.
    + apply SFmul_zeroOrNaN_r, Hb.
Qed.

(** In [buildConvexHull([maxPt, baseLine[1]], ...)] the apex is at distance
    [u * (a - a) + v * (b - b)] from the new base line. *)
Lemma origin_not_positive (u v a b : float) :
  (0 <? u * (a - a) + v * (b - b)) = false.
Proof.
  rewrite ltb_spec, add_spec, !mul_spec, !sub_spec.
  apply SFltb_zeroOrNaN.
  apply SFadd_zeroOrNaN; apply SFmul_zeroOrNaN_r, SFsub_diag.
Qed.

Section Rounding.

Variables prec emax : Z.

Lemma signedAs_notNaN (s : bool) (z : spec_float) :
  signedAs s z = true -> notNaN z = true.
Proof. destruct z; simpl; congruence. Qed.

Lemma shr_1_nonneg (mrs : shr_record) :
  (0 <= shr_m mrs)%Z -> (0 <= shr_m (shr_1 mrs))%Z.
Proof.
  destruct mrs as [m r s]. simpl.
  destruct m as [|[p|p|]|[p|p|]]; simpl; lia.
Qed.

Lemma iter_shr_1_nonneg (p : positive) :
  forall mrs, (0 <= shr_m mrs)%Z -> (0 <= shr_m (iter_pos shr_1 p mrs))%Z.
Proof.
  induction p as [p IH|p IH|]; intros mrs H; simpl.
  - apply IH, IH, shr_1_nonneg, H.
  - apply IH, IH, H.
  - apply shr_1_nonneg, H.
Qed.

Lemma shr_fexp_nonneg (m e : Z) (l : location) :
  (0 <= m)%Z -> (0 <= shr_m (fst (shr_fexp prec emax m e l)))%Z.
Proof.
  intros H. unfold shr_fexp, shr.
  assert (H0 : (0 <= shr_m (shr_record_of_loc m l))%Z)
    by (destruct l as [|[| |]]; exact H).
  destruct (Z.sub _ e); simpl; try exact H0.
  apply iter_shr_1_nonneg, H0.
Qed.

Lemma round_nearest_even_nonneg (m : Z) (l : location) :
  (0 <= m)%Z -> (0 <= round_nearest_even m l)%Z.
Proof.
  intros H. destruct l as [|[| |]]; simpl; try exact H.
  - destruct (Z.even m); [exact H|]. change (0 <= m + 1)%Z. lia.
  - change (0 <= m + 1)%Z. lia.
Qed.

(** Rounding a non-negative mantissa gives a number of the sign asked for,
    never [NaN]. *)
Lemma binary_round_aux_signed (s : bool) (m e : Z) (l : location) :
  (0 <= m)%Z -> signedAs s (binary_round_aux prec emax s m e l) = true.
Proof.
  intros H. unfold binary_round_aux.
  pose proof (shr_fexp_nonneg m e l H) as H1.
  destruct (shr_fexp prec emax m e l) as [mrs' e']. simpl in H1.
  pose proof (shr_fexp_nonneg _ e' loc_Exact
                (round_nearest_even_nonneg _ (loc_of_shr_record mrs') H1)) as H2.
  destruct (shr_fexp prec emax _ e' loc_Exact) as [mrs'' e'']. simpl in H2.
  destruct (shr_m mrs'') as [|p|p]; simpl.
  - apply eqb_reflx.
  - destruct (Z.leb e'' _); simpl; apply eqb_reflx.
  - lia.
Qed.

Lemma binary_round_signed (s : bool) (m : positive) (e : Z) :
  signedAs s (binary_round prec emax s m e) = true.
Proof.
  unfold binary_round. destruct (shl_align m e _) as [mz ez].
  apply binary_round_aux_signed. lia.
Qed.

Lemma binary_normalize_notNaN (m e : Z) (szero : bool) :
  notNaN (binary_normalize prec emax m e szero) = true.
Proof.
  destruct m; simpl; [reflexivity| |];
    eapply signedAs_notNaN, binary_round_signed.
Qed.

Lemma SFsub_finite (a b : spec_float) :
  finiteSF a = true -> finiteSF b = true ->
  notNaN (SFsub prec emax a b) = true.
Proof.
  destruct a as [sa| | |sa ma ea], b as [sb| | |sb mb eb]; simpl;
    intros Ha Hb; try discriminate; try reflexivity.
  - destruct sa, sb; reflexivity.
  - apply binary_normalize_notNaN.
Qed.

Lemma SFmul_self_nonneg (a : spec_float) :
  notNaN a = true -> signedAs false (SFmul prec emax a a) = true.
Proof.
  destruct a as [s|s| |s m e]; simpl; intros H; try discriminate;
    rewrite xorb_nilpotent; try reflexivity.
  apply binary_round_aux_signed. lia.
Qed.

Lemma SFadd_nonneg (u v : spec_float) :
  signedAs false u = true -> signedAs false v = true ->
  signedAs false (SFadd prec emax u v) = true.
Proof.
  destruct u as [su|su| |su mu eu], v as [sv|sv| |sv mv ev]; simpl;
    intros Hu Hv; try discriminate;
    try (destruct su; try discriminate); try (destruct sv; try discriminate);
    try reflexivity.
  simpl. apply binary_round_signed.
Qed.

Lemma SFsqrt_nonneg (z : spec_float) :
  signedAs false z = true -> notNaN (SFsqrt prec emax z) = true.
Proof.
  destruct z as [s|s| |s m e]; simpl; intros H; try discriminate;
    destruct s; try discriminate; try reflexivity.
  unfold SFsqrt_core_binary.
  set (m' := match Z.sub e _ with Zpos _ => _ | Z0 => _ | Zneg _ => _ end).
  assert (Hm' : (0 <= m')%Z).
  { subst m'. destruct (Z.sub e _); try lia.
    apply Z.shiftl_nonneg. lia. }
  pose proof (Z.sqrtrem_spec m' Hm') as Hs.
  change (IntDef.Z.sqrtrem m') with (Z.sqrtrem m').
  destruct (Z.sqrtrem m') as [q r].
  eapply signedAs_notNaN, binary_round_aux_signed. lia.
Qed.

End Rounding.

Lemma notNaN_is_nan (f : float) :
  notNaN (Prim2SF f) = true -> is_nan f = false.
Proof.
  unfold is_nan. rewrite eqb_spec. unfold SFeqb.
  destruct (Prim2SF f) as [s|s| |s m e]; simpl; intros H; try discriminate;
    try (destruct s; reflexivity).
  destruct s; rewrite Z.compare_refl, Pos.compare_cont_refl; reflexivity.
Qed.

(** A finite number is a zero or has a mantissa and an exponent. *)
Lemma is_finite_cases (f : float) :
  is_finite f = true ->
  (exists s, Prim2SF f = S754_zero s)
  \/ (exists s m e, Prim2SF f = S754_finite s m e).
Proof.
  unfold is_finite, is_nan, is_infinity.
  rewrite !eqb_spec, abs_spec.
  destruct (Prim2SF f) as [s|s| |s m e]; intros H; eauto;
    try destruct s; vm_compute in H; discriminate.
Qed.

(** [a - a] is [+0] for a finite [a]. *)
Lemma sub_diag_finite (a : float) :
  is_finite a = true -> Prim2SF (a - a) = S754_zero false.
Proof.
  intros H. rewrite sub_spec. unfold SF64sub.
  destruct (is_finite_cases a H) as [[s ->]|(s & m & e & ->)]; simpl.
  - destruct s; reflexivity.
  - set (X := cond_Zopp s _).
    replace (IntDef.Z.sub X X) with 0%Z by (symmetry; apply Z.sub_diag).
    reflexivity.
Qed.

Lemma is_finite_finiteSF (f : float) :
  is_finite f = true -> finiteSF (Prim2SF f) = true.
Proof.
  intros H.
  destruct (is_finite_cases f H) as [[s ->]|(s & m & e & ->)]; reflexivity.
Qed.

(** ** QuickHull: the recursion ends *)

Section HullFacts.

Variable h : store.

Lemma outside_apex_left (b0 m : loc) : outside h (b0, m) m = false.
Proof. unfold outside, baseLineDistance. simpl. apply cancel_not_positive. Qed.

Lemma outside_apex_right (m b1 : loc) : outside h (m, b1) m = false.
Proof. unfold outside, baseLineDistance. simpl. apply origin_not_positive. Qed.

Lemma findMostDistantLoop_newPoints (b : Edge) (pts : list loc) :
  forall maxD mp acc,
    newPoints (findMostDistantLoop h b pts maxD mp acc)
    = acc ++ filter (outside h b) pts.
Proof.
  induction pts as [|pt rest IH]; intros maxD mp acc; simpl.
  - now rewrite app_nil_r.
  - unfold outside at 1.
    destruct (0 <? baseLineDistance h b pt).
    + destruct (maxD <? baseLineDistance h b pt);
        rewrite IH, <- app_assoc; reflexivity.
    + apply IH.
Qed.

Lemma findMostDistantLoop_maxPoint (b : Edge) (pts : list loc) :
  forall maxD mp acc m,
    maxPoint (findMostDistantLoop h b pts maxD mp acc) = Some m ->
    mp = Some m \/ In m (filter (outside h b) pts).
Proof.
  induction pts as [|pt rest IH]; intros maxD mp acc m; simpl.
  - auto.
  - unfold outside at 1.
    destruct (0 <? baseLineDistance h b pt).
    + destruct (maxD <? baseLineDistance h b pt); intros H;
        apply IH in H; destruct H as [H|H]; simpl; auto.
      injection H as ->. auto.
    + apply IH.
Qed.

Lemma newPoints_spec (b : Edge) (pts : list loc) :
  newPoints (findMostDistantPointFromBaseLine h b pts)
  = filter (outside h b) pts.
Proof. apply findMostDistantLoop_newPoints. Qed.

Lemma maxPoint_in_newPoints (b : Edge) (pts : list loc) (m : loc) :
  maxPoint (findMostDistantPointFromBaseLine h b pts) = Some m ->
  In m (newPoints (findMostDistantPointFromBaseLine h b pts)).
Proof.
  intros H. rewrite newPoints_spec.
  apply findMostDistantLoop_maxPoint in H. destruct H as [H|H]; [discriminate|exact H].
Qed.

Lemma filter_drops (f : loc -> bool) (l : list loc) (m : loc) :
  In m l -> f m = false -> (length (filter f l) < length l)%nat.
Proof.
  induction l as [|a l IH]; simpl; [tauto|].
  intros [->|Hin] Hf.
  - rewrite Hf. pose proof (filter_length_le f l). lia.
  - specialize (IH Hin Hf). destruct (f a); simpl; lia.
Qed.

(** Fuel above the number of outside points is enough. *)
Lemma buildConvexHull_returns (fuel : nat) :
  forall (b : Edge) (pts : list loc),
    (length (filter (outside h b) pts) < fuel)%nat ->
    exists r, buildConvexHull h fuel b pts = Some r.
Proof.
  induction fuel as [|fuel IH]; intros b pts Hlt; [lia|].
  simpl.
  destruct (maxPoint (findMostDistantPointFromBaseLine h b pts)) as [m|] eqn:Em.
  - apply maxPoint_in_newPoints in Em.
    rewrite newPoints_spec in *.
    destruct (IH (fst b, m) (filter (outside h b) pts)) as [r1 ->].
    { pose proof (filter_drops (outside h (fst b, m)) _ _ Em
                    (outside_apex_left (fst b) m)). lia. }
    destruct (IH (m, snd b) (filter (outside h b) pts)) as [r2 ->].
    { pose proof (filter_drops (outside h (m, snd b)) _ _ Em
                    (outside_apex_right m (snd b))). lia. }
    eauto.
  - eauto.
Qed.

(** More fuel does not change a result. *)
Lemma buildConvexHull_fuel_mono (fuel : nat) :
  forall (fuel' : nat) (b : Edge) (pts : list loc) (r : list Edge),
    buildConvexHull h fuel b pts = Some r -> (fuel <= fuel')%nat ->
    buildConvexHull h fuel' b pts = Some r.
Proof.
  induction fuel as [|fuel IH]; intros fuel' b pts r; simpl; [discriminate|].
  intros H Hle. destruct fuel' as [|fuel']; [lia|]. simpl.
  destruct (maxPoint (findMostDistantPointFromBaseLine h b pts)) as [m|];
    [|exact H].
  destruct (buildConvexHull h fuel (fst b, m) _) as [r1|] eqn:E1;
    [|discriminate].
  destruct (buildConvexHull h fuel (m, snd b) _) as [r2|] eqn:E2;
    [|discriminate].
  rewrite (IH fuel' _ _ _ E1), (IH fuel' _ _ _ E2) by lia. exact H.
Qed.

Lemma scan_ptsArray (points : list loc) :
  forall s, ptsArray (fold_left (scanStep h) points s) = ptsArray s ++ points.
Proof.
  induction points as [|pt rest IH]; intros s; simpl.
  - now rewrite app_nil_r.
  - rewrite IH. unfold scanStep. simpl.
    destruct (gt_maybe _ _ || falsy _); simpl;
      destruct (lt_maybe _ _ || falsy _); simpl;
      rewrite <- app_assoc; reflexivity.
Qed.

Lemma findFirstBaseline_ptsArray (points : list loc) :
  ptsArray (findFirstBaseline h points) = points.
Proof. apply scan_ptsArray. Qed.

(** Once set, [maxPt] and [minPt] stay set. *)
Lemma scanStep_keeps (s : Scan) (pt : loc) :
  (falsy (maxX s) = true \/ maxPt s <> None) ->
  (falsy (minX s) = true \/ minPt s <> None) ->
  maxPt (scanStep h s pt) <> None /\ minPt (scanStep h s pt) <> None.
Proof.
  intros Hmax Hmin. unfold scanStep. cbn [maxX minX maxPt minPt ptsArray].
  destruct (gt_maybe _ (maxX s) || falsy (maxX s)) eqn:E1;
    cbn [maxX minX maxPt minPt ptsArray];
    destruct (lt_maybe _ (minX s) || falsy (minX s)) eqn:E2;
    cbn [maxX minX maxPt minPt ptsArray];
    try (apply orb_false_elim in E1 as [_ E1]);
    try (apply orb_false_elim in E2 as [_ E2]);
    split; try discriminate;
    destruct Hmax, Hmin; congruence.
Qed.

Lemma scan_keeps (points : list loc) :
  forall s, maxPt s <> None -> minPt s <> None ->
    maxPt (fold_left (scanStep h) points s) <> None
    /\ minPt (fold_left (scanStep h) points s) <> None.
Proof.
  induction points as [|pt rest IH]; intros s Hmax Hmin; simpl; [auto|].
  apply IH; apply scanStep_keeps; auto.
Qed.

Lemma findFirstBaseline_defined (points : list loc) :
  points <> [] ->
  exists mn mx, minPt (findFirstBaseline h points) = Some mn
                /\ maxPt (findFirstBaseline h points) = Some mx.
Proof.
  destruct points as [|pt rest]; [congruence|]. intros _.
  unfold findFirstBaseline. simpl.
  destruct (scanStep_keeps scanInit pt) as [Hmax Hmin];
    [left; reflexivity | left; reflexivity |].
  destruct (scan_keeps rest _ Hmax Hmin) as [H1 H2].
  destruct (minPt (fold_left _ _ _)) as [mn|]; [|congruence].
  destruct (maxPt (fold_left _ _ _)) as [mx|]; [|congruence].
  eauto.
Qed.

(** When the greatest [x] found so far is [0], the next point replaces
    [maxPt] whatever its [x]; likewise for [minPt]. *)
Lemma scanStep_zero_max (s : Scan) (pt : loc) :
  maxX s = Some 0 ->
  maxPt (scanStep h s pt) = Some pt
  /\ maxX (scanStep h s pt) = Some (h pt).(x).
Proof.
  intros E. unfold scanStep. cbn [maxX minX maxPt minPt ptsArray].
  rewrite E. replace (falsy (Some 0)) with true by reflexivity.
  rewrite orb_true_r. cbn [maxX minX maxPt minPt ptsArray].
  destruct (lt_maybe _ _ || falsy _); split; reflexivity.
Qed.

Lemma scanStep_zero_min (s : Scan) (pt : loc) :
  minX s = Some 0 ->
  minPt (scanStep h s pt) = Some pt
  /\ minX (scanStep h s pt) = Some (h pt).(x).
Proof.
  intros E. unfold scanStep. cbn [maxX minX maxPt minPt ptsArray].
  destruct (gt_maybe _ _ || falsy _);
    cbn [maxX minX maxPt minPt ptsArray]; rewrite E;
    replace (falsy (Some 0)) with true by reflexivity;
    rewrite orb_true_r; split; reflexivity.
Qed.

(** Fewer than three points: the test [ptsArray.length >= 3] fails and no
    recursion is started. *)
Lemma getConvexHull_small (points : list loc) :
  (length points < 3)%nat -> getConvexHull h points = Returns [].
Proof.
  intros H. unfold getConvexHull. rewrite findFirstBaseline_ptsArray.
  apply Nat.leb_gt in H. now rewrite H.
Qed.

(** [getConvexHull] on any collection. *)
Lemma getConvexHull_empty (points : list loc) :
  getConvexHull h points = Returns [].
Proof.
  unfold getConvexHull. rewrite findFirstBaseline_ptsArray.
  destruct (3 <=? length points)%nat eqn:E; [|reflexivity].
  apply Nat.leb_le in E.
  destruct (findFirstBaseline_defined points) as (mn & mx & -> & ->).
  { destruct points; simpl in E; [lia|congruence]. }
  simpl.
  destruct (buildConvexHull_returns (S (length points)) (mn, mx) points)
    as [r1 H1].
  { pose proof (filter_length_le (outside h (mn, mx)) points). lia. }
  destruct (buildConvexHull_returns (S (length points)) (mx, mn) points)
    as [r2 H2].
  { pose proof (filter_length_le (outside h (mx, mn)) points). lia. }
  simpl in H1, H2. rewrite H1. simpl. rewrite H2. reflexivity.
Qed.

End HullFacts.

(** ** The displacement loop *)

Lemma upd_same (h : store) (l : loc) (p : Point) : upd h l p l = p.
Proof. unfold upd. now rewrite Nat.eqb_refl. Qed.

Lemma upd_other (h : store) (l l' : loc) (p : Point) :
  l' <> l -> upd h l p l' = h l'.
Proof. intros H. unfold upd. apply Nat.eqb_neq in H. now rewrite H. Qed.

(** Objects that are not members of the collection are left alone. *)
Lemma displaceAll_frame (dx dy : float) (pts : list loc) :
  forall (h : store) (l : loc),
    ~ In l pts -> displaceAll dx dy pts h l = h l.
Proof.
  unfold displaceAll.
  induction pts as [|a pts IH]; intros h l Hnot; simpl; [reflexivity|].
  rewrite IH by (intros H; apply Hnot; now right).
  unfold translate. apply upd_other. intros ->. apply Hnot. now left.
Qed.

(** A member that occurs once is moved once. *)
Lemma displaceAll_member (dx dy : float) (pts : list loc) :
  forall (h : store) (l : loc),
    NoDup pts -> In l pts ->
    displaceAll dx dy pts h l
    = {| x := (h l).(x) + dx; y := (h l).(y) + dy |}.
Proof.
  unfold displaceAll.
  induction pts as [|a pts IH]; intros h l Hnd Hin; simpl; [contradiction|].
  inversion Hnd as [|? ? Hnotin Hnd']; subst.
  destruct Hin as [->|Hin].
  - fold (displaceAll dx dy pts (translate dx dy h l)).
    rewrite displaceAll_frame by assumption.
    unfold translate. apply upd_same.
  - rewrite IH by assumption.
    assert (l <> a) by (intros ->; contradiction).
    unfold translate. now rewrite upd_other.
Qed.

(** ** The guard and the frame of [displacePoints] *)

Lemma displaceFromHulls_guard (h : store) (chFixed chDisplace : list Edge)
    (ptsToDisplace : list loc) (padding : option float)
    (pt1 pt2 : option Point) :
  (length chFixed < 3)%nat \/ (length chDisplace < 3)%nat ->
  displaceFromHulls h chFixed chDisplace ptsToDisplace padding pt1 pt2
  = Returns h.
Proof.
  intros H. unfold displaceFromHulls.
  destruct H as [H|H]; apply Nat.ltb_lt in H; rewrite H;
    rewrite ?orb_true_r; reflexivity.
Qed.

(** Past the guard, a call that returns has moved the members by the
    computed vector; a call that does not return has thrown. *)
Lemma displaceFromHulls_returns (h h' : store) (chFixed chDisplace : list Edge)
    (ptsToDisplace : list loc) (padding : option float)
    (pt1 pt2 : option Point) :
  (3 <= length chFixed)%nat -> (3 <= length chDisplace)%nat ->
  displaceFromHulls h chFixed chDisplace ptsToDisplace padding pt1 pt2
  = Returns h' ->
  exists dx dy,
    displacementOf h chFixed chDisplace padding pt1 pt2 = Returns (dx, dy)
    /\ h' = displaceAll dx dy ptsToDisplace h.
Proof.
  intros HF HD. unfold displaceFromHulls.
  replace (length chFixed <? 3)%nat with false
    by (symmetry; apply Nat.ltb_ge; exact HF).
  replace (length chDisplace <? 3)%nat with false
    by (symmetry; apply Nat.ltb_ge; exact HD).
  simpl.
  destruct (displacementOf h chFixed chDisplace padding pt1 pt2)
    as [[dx dy]| |]; simpl; intros H; try discriminate.
  injection H as <-. eauto.
Qed.

(** Whatever the hulls are, only members of [ptsToDisplace] can change. *)
Lemma displaceFromHulls_frame (h h' : store) (chFixed chDisplace : list Edge)
    (ptsToDisplace : list loc) (padding : option float)
    (pt1 pt2 : option Point) (l : loc) :
  displaceFromHulls h chFixed chDisplace ptsToDisplace padding pt1 pt2
  = Returns h' ->
  ~ In l ptsToDisplace -> h' l = h l.
Proof.
  unfold displaceFromHulls.
  destruct (_ || _).
  - intros H _. now injection H as <-.
  - destruct (displacementOf h chFixed chDisplace padding pt1 pt2)
      as [[dx dy]| |]; simpl; intros H Hnot; try discriminate.
    injection H as <-. now apply displaceAll_frame.
Qed.

(** With the hulls that [getConvexHull] returns, the guard always fires. *)
Lemma displacePoints_unfold (h : store) (ptsFixed ptsToDisplace : list loc)
    (padding : option float) (pt1 pt2 : option Point) :
  displacePoints h ptsFixed ptsToDisplace padding pt1 pt2
  = displaceFromHulls h [] [] ptsToDisplace padding pt1 pt2.
Proof.
  unfold displacePoints. now rewrite !getConvexHull_empty.
Qed.

Lemma displacePoints_noop (h : store) (ptsFixed ptsToDisplace : list loc)
    (padding : option float) (pt1 pt2 : option Point) :
  displacePoints h ptsFixed ptsToDisplace padding pt1 pt2 = Returns h.
Proof. now rewrite displacePoints_unfold. Qed.

(** ** The directional search *)

Lemma minDistInDirectionLoop_none (h : store) (convexHull es : list Edge)
    (pt v : Point) :
  (forall e, In e es -> rayCrossesEdge h pt v e = false) ->
  minDistInDirectionLoop h convexHull es pt v = Returns None.
Proof.
  induction es as [|e es IH]; intros H; simpl; [reflexivity|].
  rewrite (H e) by now left.
  apply IH. intros e' He'. apply H. now right.
Qed.

Lemma minDistInDirectionLoop_some (h : store) (convexHull es : list Edge)
    (pt v : Point) (e : Edge) :
  In e es -> rayCrossesEdge h pt v e = true ->
  minDistInDirectionLoop h convexHull es pt v <> Returns None.
Proof.
  induction es as [|a es IH]; intros Hin Hc; simpl; [contradiction|].
  destruct (rayCrossesEdge h pt v a) eqn:Ea.
  - destruct (findMostDistantPointFromLine _ _ _ _); discriminate.
  - destruct Hin as [->|Hin]; [congruence|]. now apply IH.
Qed.

(** Past the guard, a [null] from the directional search is dereferenced
    by [displacementDataFromFixed.vector]. *)
Lemma displaceFromHulls_null_search (h : store) (chFixed chDisplace : list Edge)
    (ptsToDisplace : list loc) (padding : option float) (p v : Point) :
  (3 <= length chFixed)%nat -> (3 <= length chDisplace)%nat ->
  minDistanceVectorInDirection h chFixed p v = Returns None ->
  displaceFromHulls h chFixed chDisplace ptsToDisplace padding (Some p) (Some v)
  = Throws TypeError.
Proof.
  intros HF HD Hnull. unfold displaceFromHulls.
  replace (length chFixed <? 3)%nat with false
    by (symmetry; apply Nat.ltb_ge; exact HF).
  replace (length chDisplace <? 3)%nat with false
    by (symmetry; apply Nat.ltb_ge; exact HD).
  unfold displacementOf. rewrite Hnull. reflexivity.
Qed.

(** ** The example squares *)

(** The two recursions of [getConvexHull] on the squares of [nestedHeap]
    build [outerEdges] and [innerEdges]. *)
Lemma nested_edges_built :
  (r1 <- withFuel (buildConvexHull nestedHeap 5 (0, 1)%nat [0; 1; 2; 3]%nat) ;;
   r2 <- withFuel (buildConvexHull nestedHeap 5 (1, 0)%nat [0; 1; 2; 3]%nat) ;;
   Returns (r1 ++ r2)) = Returns outerEdges
  /\ (r1 <- withFuel (buildConvexHull nestedHeap 5 (4, 5)%nat [4; 5; 6; 7]%nat) ;;
      r2 <- withFuel (buildConvexHull nestedHeap 5 (5, 4)%nat [4; 5; 6; 7]%nat) ;;
      Returns (r1 ++ r2)) = Returns innerEdges.
Proof. split; vm_compute; reflexivity. Qed.

(** ** Degenerate segments *)

(** A segment whose ends have the same finite coordinates passes the test
    [l2 === 0] of [distToSegmentSquared]. *)
Lemma dist2_same_finite (v : Point) :
  is_finite v.(x) = true -> is_finite v.(y) = true ->
  (dist2 v v =? 0) = true.
Proof.
  intros Hx Hy. unfold dist2, sqr.
  rewrite eqb_spec, add_spec, !mul_spec.
  rewrite (sub_diag_finite _ Hx), (sub_diag_finite _ Hy). reflexivity.
Qed.

(** Between points with finite coordinates [dist2] is a number that is not
    negative (possibly [+Infinity]), and so is its square root. *)
Lemma dist2_nonneg (p q : Point) :
  finitePoint p = true -> finitePoint q = true ->
  signedAs false (Prim2SF (dist2 p q)) = true.
Proof.
  unfold finitePoint. intros Hp Hq.
  apply andb_prop in Hp as [Hpx Hpy]. apply andb_prop in Hq as [Hqx Hqy].
  unfold dist2, sqr. rewrite add_spec, !mul_spec, !sub_spec.
  apply SFadd_nonneg; apply SFmul_self_nonneg, SFsub_finite;
    now apply is_finite_finiteSF.
Qed.

Lemma dist2_not_nan (p q : Point) :
  finitePoint p = true -> finitePoint q = true ->
  is_nan (dist2 p q) = false /\ is_nan (sqrt (dist2 p q)) = false.
Proof.
  intros Hp Hq. pose proof (dist2_nonneg p q Hp Hq) as H. split.
  - eapply notNaN_is_nan, signedAs_notNaN, H.
  - apply notNaN_is_nan. rewrite sqrt_spec. apply SFsqrt_nonneg, H.
Qed.

(** * The claims *)


(** C2 (the code departs from it). The hull of three non-collinear points
    is meant to be the three edges of the triangle. Both recursions do
    build them, two edges from the base line [(0, 1)] and one from
    [(1, 0)], but [getConvexHull] returns no edge at all. *)
Lemma getConvexHull_triangle_empty :
  getConvexHull triangleHeap [0; 1; 2]%nat = Returns []
  /\ minPt (findFirstBaseline triangleHeap [0; 1; 2]%nat) = Some 0%nat
  /\ maxPt (findFirstBaseline triangleHeap [0; 1; 2]%nat) = Some 1%nat
  /\ buildConvexHull triangleHeap 4 (0, 1)%nat [0; 1; 2]%nat
     = Some [(0, 2); (2, 1)]%nat
  /\ buildConvexHull triangleHeap 4 (1, 0)%nat [0; 1; 2]%nat
     = Some [(1, 0)]%nat.
Proof. repeat split; vm_compute; reflexivity. Qed.

(** C3. [getConvexHull] returns the empty array for every collection of
    points: the recursions run to completion and their edges are dropped
    with the unused value of [ch.concat(...)]. *)
Theorem getConvexHull_always_empty (h : store) (points : list loc) :
  getConvexHull h points = Returns [].
Proof. apply getConvexHull_empty. Qed.

(** C4. A call of [displacePoints] returns with every object of [ptsFixed]
    as it was, and with every object that is not a member of
    [ptsToDisplace] as it was. *)
Theorem displacePoints_fixed_unchanged (h : store)
    (ptsFixed ptsToDisplace : list loc) (padding : option float)
    (pt1 pt2 : option Point) :
  exists h',
    displacePoints h ptsFixed ptsToDisplace padding pt1 pt2 = Returns h'
    /\ (forall l, In l ptsFixed -> h' l = h l)
    /\ (forall l, ~ In l ptsToDisplace -> h' l = h l).
Proof.
  exists h. split; [apply displacePoints_noop|].
  split; intros l _; reflexivity.
Qed.

(** C4 on the two squares of the scenario: object [2] of [ptsFixed] and
    object [9], which is in neither collection, are as they were. *)
Lemma displacePoints_fixed_unchanged_witness :
  exists h',
    displacePoints scenarioHeap [0; 1; 2; 3]%nat [4; 5; 6; 7]%nat
      None None None = Returns h'
    /\ h' 2%nat = scenarioHeap 2%nat
    /\ h' 9%nat = scenarioHeap 9%nat.
Proof.
  destruct (displacePoints_fixed_unchanged scenarioHeap
              [0; 1; 2; 3]%nat [4; 5; 6; 7]%nat None None None)
    as (h' & E & Hfixed & Hframe).
  exists h'. split; [exact E|]. split.
  - apply Hfixed. simpl. auto.
  - apply Hframe. simpl. intros H. decompose [or] H; discriminate || assumption.
Defined.

(** C5. When both hulls have at least three edges and the call returns,
    one vector [(dx, dy)], the sum of the displacement and padding vectors,
    has been added to each member of [ptsToDisplace] in turn; when the
    members are distinct objects each has moved by exactly [(dx, dy)] and
    nothing else has moved. Stated for the body of [displacePoints] from the
    guard on, for any two hulls. *)
Theorem displaceFromHulls_rigid_translation (h h' : store)
    (chFixed chDisplace : list Edge) (ptsToDisplace : list loc)
    (padding : option float) (pt1 pt2 : option Point) :
  (3 <= length chFixed)%nat -> (3 <= length chDisplace)%nat ->
  displaceFromHulls h chFixed chDisplace ptsToDisplace padding pt1 pt2
  = Returns h' ->
  exists dx dy,
    displacementOf h chFixed chDisplace padding pt1 pt2 = Returns (dx, dy)
    /\ h' = displaceAll dx dy ptsToDisplace h
    /\ (NoDup ptsToDisplace -> movedBy dx dy ptsToDisplace h h').
Proof.
  intros HF HD H.
  destruct (displaceFromHulls_returns _ _ _ _ _ _ _ _ HF HD H)
    as (dx & dy & E & ->).
  exists dx, dy. split; [exact E|]. split; [reflexivity|].
  intros Hnd. split; intros l Hl.
  - now apply displaceAll_member.
  - now apply displaceAll_frame.
Qed.

(** C5 on the nested squares with their hulls, [padding = 1] and
    [pt1 = (3, 2)]: the inner square moves by [(0, -4)]. *)
Lemma displaceFromHulls_rigid_translation_witness :
  exists dx dy,
    displacementOf nestedHeap outerEdges innerEdges (Some 1)
      (Some {| x := 3; y := 2 |}) None = Returns (dx, dy)
    /\ displaceAll 0 (-4) [4; 5; 6; 7]%nat nestedHeap
       = displaceAll dx dy [4; 5; 6; 7]%nat nestedHeap
    /\ (NoDup [4; 5; 6; 7]%nat ->
        movedBy dx dy [4; 5; 6; 7]%nat nestedHeap
          (displaceAll 0 (-4) [4; 5; 6; 7]%nat nestedHeap)).
Proof.
  apply (displaceFromHulls_rigid_translation nestedHeap
           (displaceAll 0 (-4) [4; 5; 6; 7]%nat nestedHeap)
           outerEdges innerEdges [4; 5; 6; 7]%nat (Some 1)
           (Some {| x := 3; y := 2 |}) None).
  - simpl. lia.
  - simpl. lia.
  - vm_compute. reflexivity.
Defined.

(** C6. If either computed hull has fewer than three edges,
    [displacePoints] returns without throwing and the heap, hence every
    coordinate of both collections, is as it was. *)
Theorem displacePoints_degenerate_noop (h : store)
    (ptsFixed ptsToDisplace : list loc) (padding : option float)
    (pt1 pt2 : option Point) (chFixed chDisplace : list Edge) :
  getConvexHull h ptsFixed = Returns chFixed ->
  getConvexHull h ptsToDisplace = Returns chDisplace ->
  (length chFixed < 3)%nat \/ (length chDisplace < 3)%nat ->
  displacePoints h ptsFixed ptsToDisplace padding pt1 pt2 = Returns h.
Proof.
  intros HF HD Hlen. unfold displacePoints. rewrite HF, HD. simpl.
  now apply displaceFromHulls_guard.
Qed.

(** C6 with a fixed collection of two points. *)
Lemma displacePoints_degenerate_noop_witness :
  displacePoints scenarioHeap [0; 1]%nat [4; 5; 6; 7]%nat (Some 1) None None
  = Returns scenarioHeap.
Proof.
  apply (displacePoints_degenerate_noop scenarioHeap
           [0; 1]%nat [4; 5; 6; 7]%nat (Some 1) None None [] []).
  - reflexivity.
  - vm_compute. reflexivity.
  - left. simpl. lia.
Defined.


(** C8. When the denominator is zero [checkLineIntersection] returns the
    result it started with ([null] coordinates, both flags false), before
    any division; when the squared length of the segment is zero
    [distToSegmentSquared] returns the squared distance to the end [v1], and
    [distToSegment] its square root; for points with finite coordinates
    neither is [NaN]. *)
Theorem degenerate_geometry_guarded
    (line1Start line1End line2Start line2End pt v1 v2 : Point) :
  (denominator line1Start line1End line2Start line2End =? 0) = true ->
  (dist2 v1 v2 =? 0) = true ->
  checkLineIntersection line1Start line1End line2Start line2End
  = noIntersection
  /\ distToSegmentSquared pt v1 v2 = dist2 pt v1
  /\ distToSegment pt v1 v2 = sqrt (dist2 pt v1)
  /\ (finitePoint pt = true -> finitePoint v1 = true ->
      is_nan (distToSegmentSquared pt v1 v2) = false
      /\ is_nan (distToSegment pt v1 v2) = false).
Proof.
  intros Hden Hlen.
  unfold distToSegment, distToSegmentSquared, checkLineIntersection.
  rewrite Hden, Hlen. repeat split; now apply dist2_not_nan.
Qed.

(** C8 on two parallel lines and on the segment from [(3, 4)] to itself,
    seen from the origin. *)
Lemma degenerate_geometry_guarded_witness :
  checkLineIntersection {| x := 0; y := 0 |} {| x := 1; y := 1 |}
    {| x := 0; y := 1 |} {| x := 1; y := 2 |} = noIntersection
  /\ distToSegmentSquared {| x := 0; y := 0 |} {| x := 3; y := 4 |}
       {| x := 3; y := 4 |} = 25
  /\ distToSegment {| x := 0; y := 0 |} {| x := 3; y := 4 |}
       {| x := 3; y := 4 |} = 5
  /\ is_nan (distToSegment {| x := 0; y := 0 |} {| x := 3; y := 4 |}
               {| x := 3; y := 4 |}) = false.
Proof.
  destruct (degenerate_geometry_guarded
              {| x := 0; y := 0 |} {| x := 1; y := 1 |}
              {| x := 0; y := 1 |} {| x := 1; y := 2 |}
              {| x := 0; y := 0 |} {| x := 3; y := 4 |} {| x := 3; y := 4 |})
    as (Hline & Hsq & Hdist & Hnan).
  - vm_compute. reflexivity.
  - apply dist2_same_finite; vm_compute; reflexivity.
  - split; [exact Hline|]. split; [rewrite Hsq; vm_compute; reflexivity|].
    split; [rewrite Hdist; vm_compute; reflexivity|].
    apply Hnan; vm_compute; reflexivity.
Defined.

(** C9 (the code departs from it). [maxPt] and [minPt] are meant to be the
    first points of greatest and least [x]. The tests [!maxX] and [!minX]
    also hold when the extreme found so far is [0]: after [(0, 0)] the
    point [(-1, 1)] becomes [maxPt] although its [x] is smaller, and of two
    points with [x = 0] the second one becomes both [maxPt] and [minPt]. *)
Lemma findFirstBaseline_zero_reset :
  maxPt (findFirstBaseline leftwardHeap [0; 1]%nat) = Some 1%nat
  /\ ((leftwardHeap 1%nat).(x) <? (leftwardHeap 0%nat).(x)) = true
  /\ maxPt (findFirstBaseline tiedHeap [0; 1]%nat) = Some 1%nat
  /\ minPt (findFirstBaseline tiedHeap [0; 1]%nat) = Some 1%nat
  /\ ((tiedHeap 0%nat).(x) =? (tiedHeap 1%nat).(x)) = true.
Proof. repeat split; vm_compute; reflexivity. Qed.

(** C10 (the code departs from it). On the two overlapping squares with
    [padding = 0] the call returns with the heap as it was: the points of
    [ptsToDisplace] are still [(1, 1)], [(1, 2)], [(2, 1)] and [(2, 2)],
    their least [x] is [1], and [(1, 1)] is the centre of the fixed
    square. *)
Lemma scenario_not_separated :
  displacePoints scenarioHeap [0; 1; 2; 3]%nat [4; 5; 6; 7]%nat
    (Some 0) None None = Returns scenarioHeap
  /\ map scenarioHeap [4; 5; 6; 7]%nat
     = [ {| x := 1; y := 1 |}; {| x := 1; y := 2 |};
         {| x := 2; y := 1 |}; {| x := 2; y := 2 |} ]
  /\ scenarioHeap 4%nat = midpoint (scenarioHeap 0%nat) (scenarioHeap 2%nat).
Proof. repeat split; vm_compute; reflexivity. Qed.

(** * Further properties *)

(** ** The order on binary64 numbers *)

Ltac cmp_cases :=
  repeat match goal with
  | |- context [IntDef.Z.compare ?a ?b] =>
      change (IntDef.Z.compare a b) with (Z.compare a b);
      destruct (Z.compare_spec a b)
  | |- context [PosDef.Pos.compare_cont Eq ?a ?b] =>
      change (PosDef.Pos.compare_cont Eq a b) with (Pos.compare a b);
      destruct (Pos.compare_spec a b)
  | H : context [IntDef.Z.compare ?a ?b] |- _ =>
      change (IntDef.Z.compare a b) with (Z.compare a b) in H;
      destruct (Z.compare_spec a b)
  | H : context [PosDef.Pos.compare_cont Eq ?a ?b] |- _ =>
      change (PosDef.Pos.compare_cont Eq a b) with (Pos.compare a b) in H;
      destruct (Pos.compare_spec a b)
  end.

Ltac cmp_solve :=
  simpl in *; try discriminate; try reflexivity; try congruence;
  cmp_cases; simpl in *; subst;
  try discriminate; try reflexivity; try congruence; try lia.

Lemma SFcompare_irrefl (a : spec_float) : SFcompare a a <> Some Lt.
Proof. destruct a as [s|s| |s m e]; try destruct s; cmp_solve. Qed.

Lemma SFcompare_trans (a b c : spec_float) :
  SFcompare a b = Some Lt -> SFcompare b c = Some Lt ->
  SFcompare a c = Some Lt.
Proof.
  destruct a as [sa|sa| |sa ma ea], b as [sb|sb| |sb mb eb],
    c as [sc|sc| |sc mc ec];
    try destruct sa; try destruct sb; try destruct sc;
    intros H1 H2; cmp_solve.
Qed.

Lemma SFltb_irrefl (a : spec_float) : SFltb a a = false.
Proof.
  unfold SFltb. pose proof (SFcompare_irrefl a) as H.
  destruct (SFcompare a a) as [[| |]|]; congruence.
Qed.

Lemma SFltb_trans (a b c : spec_float) :
  SFltb a b = true -> SFltb b c = true -> SFltb a c = true.
Proof.
  unfold SFltb. intros H1 H2.
  rewrite (SFcompare_trans a b c); [reflexivity| |].
  - destruct (SFcompare a b) as [[| |]|]; congruence.
  - destruct (SFcompare b c) as [[| |]|]; congruence.
Qed.

(** [p <= m < c] gives [p < c] when [p] is a number. *)
Lemma SFltb_le_lt (m p c : spec_float) :
  SFltb m p = false -> notNaN p = true -> SFltb m c = true ->
  SFltb p c = true.
Proof.
  unfold SFltb.
  destruct m as [sm|sm| |sm mm em], p as [sp|sp| |sp mp ep],
    c as [sc|sc| |sc mc ec];
    try destruct sm; try destruct sp; try destruct sc;
    intros H1 H2 H3; cmp_solve.
Qed.

(** [c < m <= p] gives [c < p] when [p] is a number. *)
Lemma SFltb_lt_le (m p c : spec_float) :
  SFltb p m = false -> notNaN p = true -> SFltb c m = true ->
  SFltb c p = true.
Proof.
  unfold SFltb.
  destruct m as [sm|sm| |sm mm em], p as [sp|sp| |sp mp ep],
    c as [sc|sc| |sc mc ec];
    try destruct sm; try destruct sp; try destruct sc;
    intros H1 H2 H3; cmp_solve.
Qed.

Lemma is_nan_notNaN (f : float) :
  is_nan f = false -> notNaN (Prim2SF f) = true.
Proof.
  unfold is_nan. rewrite eqb_spec.
  destruct (Prim2SF f); simpl; intros H; try reflexivity; discriminate.
Qed.

Lemma ltb_not_nan_l (a b : float) : (a <? b) = true -> is_nan a = false.
Proof.
  rewrite ltb_spec. intros H. apply notNaN_is_nan.
  destruct (Prim2SF a); try reflexivity; discriminate.
Qed.

Lemma ltb_not_nan_r (a b : float) : (a <? b) = true -> is_nan b = false.
Proof.
  rewrite ltb_spec. intros H. apply notNaN_is_nan.
  destruct (Prim2SF a), (Prim2SF b); try reflexivity; discriminate.
Qed.

Lemma greater_irrefl (a : float) : greater a a = false.
Proof. unfold greater. rewrite ltb_spec. apply SFltb_irrefl. Qed.

Lemma greater_trans (a b c : float) :
  greater a b = true -> greater b c = true -> greater a c = true.
Proof.
  unfold greater. rewrite !ltb_spec. intros H1 H2.
  eapply SFltb_trans; eassumption.
Qed.

Lemma greater_mixed (c m p : float) :
  greater c m = true -> greater p m = false -> is_nan p = false ->
  greater c p = true.
Proof.
  unfold greater. rewrite !ltb_spec. intros H1 H2 H3.
  eapply SFltb_le_lt; eauto using is_nan_notNaN.
Qed.

Lemma smaller_irrefl (a : float) : smaller a a = false.
Proof. unfold smaller. rewrite ltb_spec. apply SFltb_irrefl. Qed.

Lemma smaller_trans (a b c : float) :
  smaller a b = true -> smaller b c = true -> smaller a c = true.
Proof.
  unfold smaller. rewrite !ltb_spec. intros H1 H2.
  eapply SFltb_trans; eassumption.
Qed.

Lemma smaller_mixed (c m p : float) :
  smaller c m = true -> smaller p m = false -> is_nan p = false ->
  smaller c p = true.
Proof.
  unfold smaller. rewrite !ltb_spec. intros H1 H2 H3.
  eapply SFltb_lt_le; eauto using is_nan_notNaN.
Qed.

(** ** Selection loops *)

Section BestLoop.

Variable A : Type.
Variable better : float -> float -> bool.
Variable key : A -> float.

Hypothesis better_irrefl : forall a, better a a = false.
Hypothesis better_trans :
  forall a b c, better a b = true -> better b c = true -> better a c = true.
Hypothesis better_mixed :
  forall c m p, better c m = true -> better p m = false ->
    is_nan p = false -> better c p = true.

Lemma bestLoop_none (l : list A) (cur : option A) :
  bestLoop better key l cur = None <-> l = [] /\ cur = None.
Proof.
  revert cur. induction l as [|a l IH]; intros cur; simpl.
  - tauto.
  - destruct cur as [c|].
    + destruct (better (key a) (key c)); rewrite IH;
        split; intros [? ?]; discriminate.
    + rewrite IH. split; intros [? ?]; discriminate.
Qed.

Lemma bestLoop_member (l : list A) :
  forall cur m, bestLoop better key l cur = Some m ->
    cur = Some m \/ In m l.
Proof.
  induction l as [|a l IH]; intros cur m; simpl; [auto|].
  destruct cur as [c|].
  - destruct (better (key a) (key c)); intros H; apply IH in H;
      destruct H as [H|H]; auto. injection H as ->. auto.
  - intros H; apply IH in H. destruct H as [H|H]; auto.
    injection H as ->. auto.
Qed.

(** The member kept is the current one or beats it, and no member of the
    list beats it. *)
Lemma bestLoop_optimal (l : list A) :
  forall c m, bestLoop better key l (Some c) = Some m ->
    (m = c \/ better (key m) (key c) = true)
    /\ better (key c) (key m) = false
    /\ forall a, In a l -> better (key a) (key m) = false.
Proof.
  induction l as [|a l IH]; intros c m; simpl.
  - intros H. injection H as ->. repeat split; auto; try contradiction.
  - destruct (better (key a) (key c)) eqn:Eac; intros H;
      apply IH in H; destruct H as (Hm & Hcm & Hall).
    + assert (Hmc : better (key m) (key c) = true).
      { destruct Hm as [->|Hm]; [exact Eac|].
        eapply better_trans; eassumption. }
      repeat split; auto.
      * destruct (better (key c) (key m)) eqn:E; [|reflexivity].
        rewrite <- (better_irrefl (key m)). symmetry.
        eapply better_trans; eassumption.
      * intros a' [<-|Hin]; auto.
    + repeat split; auto.
      intros a' [<-|Hin]; auto.
      destruct Hm as [->|Hm]; [exact Eac|].
      destruct (better (key a) (key m)) eqn:E; [|reflexivity].
      rewrite <- Eac. symmetry. eapply better_trans; eassumption.
Qed.

Lemma bestLoop_optimal_none (l : list A) (m : A) :
  bestLoop better key l None = Some m ->
  forall a, In a l -> better (key a) (key m) = false.
Proof.
  destruct l as [|a0 l]; simpl; [discriminate|].
  intros H. apply bestLoop_optimal in H. destruct H as (_ & Hc & Hall).
  intros a [<-|Hin]; auto.
Qed.

(** Among numbers the member kept is the first of the best ones: it beats
    every member before it. *)
Lemma bestLoop_first (l : list A) :
  (forall a, In a l -> is_nan (key a) = false) ->
  forall c m, bestLoop better key l (Some c) = Some m ->
    (m = c /\ forall a, In a l -> better (key a) (key c) = false)
    \/ (exists pre post, l = pre ++ m :: post
          /\ better (key m) (key c) = true
          /\ forall a, In a pre -> better (key m) (key a) = true).
Proof.
  induction l as [|a l IH]; intros Hnan c m; simpl.
  - intros H. injection H as ->. left. split; [reflexivity|contradiction].
  - assert (Hnan' : forall a', In a' l -> is_nan (key a') = false)
      by (intros; apply Hnan; now right).
    destruct (better (key a) (key c)) eqn:Eac; intros H;
      apply (IH Hnan') in H; destruct H as [[-> Hall]|(pre & post & -> & Hm & Hpre)].
    + right. exists [], l. repeat split; auto; try contradiction.
    + right. exists (a :: pre), post. repeat split; auto.
      * eapply better_trans; eassumption.
      * intros a' [<-|Hin]; auto.
    + left. split; [reflexivity|]. intros a' [<-|Hin]; auto.
    + right. exists (a :: pre), post. repeat split; auto.
      intros a' [<-|Hin]; auto.
      eapply better_mixed; eauto. apply Hnan. now left.
Qed.

Lemma bestLoop_first_none (l : list A) (m : A) :
  (forall a, In a l -> is_nan (key a) = false) ->
  bestLoop better key l None = Some m ->
  exists pre post, l = pre ++ m :: post
    /\ forall a, In a pre -> better (key m) (key a) = true.
Proof.
  destruct l as [|a0 l]; simpl; [discriminate|].
  intros Hnan H. apply bestLoop_first in H; [|intros; apply Hnan; now right].
  destruct H as [[-> _]|(pre & post & -> & Hm & Hpre)].
  - exists [], l. split; [reflexivity|contradiction].
  - exists (a0 :: pre), post. split; [reflexivity|].
    intros a [<-|Hin]; auto.
Qed.

End BestLoop.

(** ** QuickHull: what the recursion builds *)

Section HullMore.

Variable h : store.

Lemma findMostDistantLoop_best (b : Edge) (pts : list loc) :
  forall maxD mp acc,
    match mp with
    | None => maxD = 0
    | Some c => maxD = baseLineDistance h b c
    end ->
    maxPoint (findMostDistantLoop h b pts maxD mp acc)
    = bestLoop greater (baseLineDistance h b) (filter (outside h b) pts) mp.
Proof.
  induction pts as [|pt rest IH]; intros maxD mp acc Hinv; simpl.
  - reflexivity.
  - unfold outside at 1.
    destruct (0 <? baseLineDistance h b pt) eqn:Epos; simpl.
    + destruct mp as [c|]; subst maxD.
      * unfold greater at 1.
        destruct (baseLineDistance h b c <? baseLineDistance h b pt);
          apply IH; reflexivity.
      * rewrite Epos. apply IH. reflexivity.
    + apply IH. exact Hinv.
Qed.

Lemma maxPoint_best (b : Edge) (pts : list loc) :
  maxPoint (findMostDistantPointFromBaseLine h b pts)
  = bestLoop greater (baseLineDistance h b) (filter (outside h b) pts) None.
Proof. apply findMostDistantLoop_best. reflexivity. Qed.

Lemma outside_not_nan (b : Edge) (p : loc) :
  outside h b p = true -> is_nan (baseLineDistance h b p) = false.
Proof. unfold outside. apply ltb_not_nan_r. Qed.

(** X1. Neither end of a base line is ever outside it, whatever the
    coordinates are (zeros, infinities and [NaN] included). *)
Theorem baseLine_ends_never_outside (b0 b1 : loc) :
  outside h (b0, b1) b0 = false /\ outside h (b0, b1) b1 = false.
Proof. split; [apply outside_apex_right | apply outside_apex_left]. Qed.

(** X2. [findMostDistantPointFromBaseLine] returns in [newPoints] the
    points with [distance > 0], in their input order; [maxPoint] is [null]
    exactly when there is none, and otherwise is one of them. *)
Theorem findMostDistantPointFromBaseLine_partition (b : Edge)
    (pts : list loc) :
  let t := findMostDistantPointFromBaseLine h b pts in
  newPoints t = filter (outside h b) pts
  /\ (maxPoint t = None <-> newPoints t = [])
  /\ (forall m, maxPoint t = Some m ->
        In m pts /\ outside h b m = true).
Proof.
  cbv zeta. rewrite newPoints_spec, maxPoint_best. split; [reflexivity|].
  split.
  - rewrite bestLoop_none. tauto.
  - intros m H. apply bestLoop_member in H.
    destruct H as [H|H]; [discriminate|]. now apply filter_In in H.
Qed.

(** X3. The [maxPoint] of [findMostDistantPointFromBaseLine] is a point of
    greatest distance: no input point is farther from the base line, and the
    outside points that come before it are strictly nearer (of equally
    distant points the first wins). *)
Theorem maxPoint_first_greatest (b : Edge) (pts : list loc) (m : loc) :
  maxPoint (findMostDistantPointFromBaseLine h b pts) = Some m ->
  (forall p, In p pts ->
     (baseLineDistance h b m <? baseLineDistance h b p) = false)
  /\ exists pre post,
       newPoints (findMostDistantPointFromBaseLine h b pts)
       = pre ++ m :: post
       /\ forall q, In q pre ->
            (baseLineDistance h b q <? baseLineDistance h b m) = true.
Proof.
  rewrite newPoints_spec, maxPoint_best. intros H. split.
  - intros p Hp.
    assert (Hm : outside h b m = true).
    { apply bestLoop_member in H. destruct H as [H|H]; [discriminate|].
      now apply filter_In in H. }
    destruct (outside h b p) eqn:Eo.
    + apply (bestLoop_optimal_none _ greater (baseLineDistance h b)
               greater_irrefl greater_trans _ m H).
      apply filter_In. auto.
    + destruct (baseLineDistance h b m <? baseLineDistance h b p) eqn:E;
        [|reflexivity].
      rewrite <- Eo. symmetry. unfold outside in *.
      rewrite ltb_spec in *. eapply SFltb_trans; eassumption.
  - apply (bestLoop_first_none _ greater (baseLineDistance h b)
             greater_trans greater_mixed); [|exact H].
    intros a Ha. apply (outside_not_nan b). now apply filter_In in Ha.
Qed.

(** X4. [buildConvexHull] returns for every base line and every list of
    points: one result is obtained with any fuel above the number of
    points. *)
Theorem buildConvexHull_terminates (b : Edge) (pts : list loc) :
  exists r, forall fuel, (length pts < fuel)%nat ->
    buildConvexHull h fuel b pts = Some r.
Proof.
  destruct (buildConvexHull_returns h (S (length pts)) b pts) as [r Hr].
  { pose proof (filter_length_le (outside h b) pts). lia. }
  exists r. intros fuel Hfuel.
  apply (buildConvexHull_fuel_mono h (S (length pts))); [exact Hr|lia].
Qed.

Lemma pathFrom_app (r1 r2 : list Edge) :
  forall a m b,
    pathFrom a r1 = Some m -> pathFrom m r2 = Some b ->
    pathFrom a (r1 ++ r2) = Some b.
Proof.
  induction r1 as [|e r1 IH]; intros a m b; simpl.
  - intros H. now injection H as ->.
  - destruct (Nat.eqb (fst e) a); [|discriminate]. apply IH.
Qed.

Lemma buildConvexHull_path (fuel : nat) :
  forall (b : Edge) (pts : list loc) (r : list Edge),
    buildConvexHull h fuel b pts = Some r ->
    r <> [] /\ pathFrom (fst b) r = Some (snd b).
Proof.
  induction fuel as [|fuel IH]; intros b pts r; simpl; [discriminate|].
  destruct (maxPoint (findMostDistantPointFromBaseLine h b pts)) as [m|].
  - destruct (buildConvexHull h fuel (fst b, m) _) as [r1|] eqn:E1;
      [|discriminate].
    destruct (buildConvexHull h fuel (m, snd b) _) as [r2|] eqn:E2;
      [|discriminate].
    intros H. injection H as <-.
    apply IH in E1. apply IH in E2. simpl in E1, E2.
    destruct E1 as [N1 P1], E2 as [N2 P2]. split.
    + destruct r1; [congruence|discriminate].
    + eapply pathFrom_app; eassumption.
  - intros H. injection H as <-. split; [discriminate|].
    simpl. now rewrite Nat.eqb_refl.
Qed.

(** X5. The edges that [buildConvexHull] returns are at least one and form
    a chain from [baseLine[0]] to [baseLine[1]]: each edge starts at the
    point where the previous one ends. *)
Theorem buildConvexHull_chain (fuel : nat) (b : Edge) (pts : list loc)
    (r : list Edge) :
  buildConvexHull h fuel b pts = Some r ->
  r <> [] /\ pathFrom (fst b) r = Some (snd b).
Proof. apply buildConvexHull_path. Qed.

(** X6. Every end of an edge that [buildConvexHull] returns is an end of
    the base line or one of the given points that is outside the base
    line. *)
Theorem buildConvexHull_vertices (fuel : nat) :
  forall (b : Edge) (pts : list loc) (r : list Edge),
    buildConvexHull h fuel b pts = Some r ->
    forall e v, In e r -> v = fst e \/ v = snd e ->
      v = fst b \/ v = snd b \/ (In v pts /\ outside h b v = true).
Proof.
  induction fuel as [|fuel IH]; intros b pts r; simpl; [discriminate|].
  destruct (maxPoint (findMostDistantPointFromBaseLine h b pts)) as [m|] eqn:Em.
  - apply maxPoint_in_newPoints in Em. rewrite newPoints_spec in *.
    destruct (buildConvexHull h fuel (fst b, m) _) as [r1|] eqn:E1;
      [|discriminate].
    destruct (buildConvexHull h fuel (m, snd b) _) as [r2|] eqn:E2;
      [|discriminate].
    intros H e v He Hv. injection H as <-. simpl in He.
    apply in_app_or in He.
    assert (Hsub : forall w, w = m \/ In w (filter (outside h b) pts) ->
                     In w pts /\ outside h b w = true).
    { intros w [->|Hw]; now apply filter_In. }
    destruct He as [He|He].
    + destruct (IH _ _ _ E1 e v He Hv) as [->|[->|[Hin _]]]; simpl; auto.
    + destruct (IH _ _ _ E2 e v He Hv) as [->|[->|[Hin _]]]; simpl; auto.
  - intros H e v He Hv. injection H as <-.
    destruct He as [<-|[]]. destruct Hv as [->| ->]; auto.
Qed.

(** X7. The two recursions that [getConvexHull] starts, on [(a, b)] and on
    [(b, a)], together return a closed chain: followed from [a], their edges
    lead through [b] and back to [a]. *)
Theorem buildConvexHull_closed_chain (fuel : nat) (a b : loc)
    (pts : list loc) (r1 r2 : list Edge) :
  buildConvexHull h fuel (a, b) pts = Some r1 ->
  buildConvexHull h fuel (b, a) pts = Some r2 ->
  pathFrom a r1 = Some b /\ pathFrom a (r1 ++ r2) = Some a.
Proof.
  intros H1 H2.
  destruct (buildConvexHull_path fuel _ _ _ H1) as [_ P1].
  destruct (buildConvexHull_path fuel _ _ _ H2) as [_ P2].
  simpl in P1, P2. split; [exact P1|].
  eapply pathFrom_app; eassumption.
Qed.

End HullMore.

(** ** The first base line *)

Section ScanMore.

Variable h : store.

Lemma scanStep_maxPt (s : Scan) (pt : loc) :
  maxPt (scanStep h s pt)
  = (if gt_maybe (h pt).(x) (maxX s) || falsy (maxX s)
     then Some pt else maxPt s)
  /\ maxX (scanStep h s pt)
     = (if gt_maybe (h pt).(x) (maxX s) || falsy (maxX s)
        then Some (h pt).(x) else maxX s).
Proof.
  unfold scanStep. cbn [maxX minX maxPt minPt ptsArray].
  destruct (gt_maybe _ (maxX s) || falsy (maxX s));
    cbn [maxX minX maxPt minPt ptsArray];
    destruct (lt_maybe _ (minX s) || falsy (minX s)); split; reflexivity.
Qed.

Lemma scanStep_minPt (s : Scan) (pt : loc) :
  minPt (scanStep h s pt)
  = (if lt_maybe (h pt).(x) (minX s) || falsy (minX s)
     then Some pt else minPt s)
  /\ minX (scanStep h s pt)
     = (if lt_maybe (h pt).(x) (minX s) || falsy (minX s)
        then Some (h pt).(x) else minX s).
Proof.
  unfold scanStep. cbn [maxX minX maxPt minPt ptsArray].
  destruct (gt_maybe _ (maxX s) || falsy (maxX s));
    cbn [maxX minX maxPt minPt ptsArray];
    destruct (lt_maybe _ (minX s) || falsy (minX s)); split; reflexivity.
Qed.

Lemma scan_max_member (pts : list loc) :
  forall (s : Scan) (seen : list loc),
    (forall c, maxPt s = Some c -> In c seen /\ maxX s = Some (h c).(x)) ->
    forall c, maxPt (fold_left (scanStep h) pts s) = Some c ->
      In c (seen ++ pts)
      /\ maxX (fold_left (scanStep h) pts s) = Some (h c).(x).
Proof.
  induction pts as [|pt rest IH]; intros s seen Hinv c; simpl.
  - rewrite app_nil_r. apply Hinv.
  - intros H. replace (seen ++ pt :: rest) with ((seen ++ [pt]) ++ rest)
      by (rewrite <- app_assoc; reflexivity).
    apply (IH (scanStep h s pt)); [|exact H].
    intros c'. destruct (scanStep_maxPt s pt) as [-> ->].
    destruct (gt_maybe _ _ || falsy _).
    + intros E. injection E as <-. split; [|reflexivity].
      apply in_or_app. right. now left.
    + intros E. destruct (Hinv c' E). split; [|assumption].
      apply in_or_app. now left.
Qed.

Lemma scan_min_member (pts : list loc) :
  forall (s : Scan) (seen : list loc),
    (forall c, minPt s = Some c -> In c seen /\ minX s = Some (h c).(x)) ->
    forall c, minPt (fold_left (scanStep h) pts s) = Some c ->
      In c (seen ++ pts)
      /\ minX (fold_left (scanStep h) pts s) = Some (h c).(x).
Proof.
  induction pts as [|pt rest IH]; intros s seen Hinv c; simpl.
  - rewrite app_nil_r. apply Hinv.
  - intros H. replace (seen ++ pt :: rest) with ((seen ++ [pt]) ++ rest)
      by (rewrite <- app_assoc; reflexivity).
    apply (IH (scanStep h s pt)); [|exact H].
    intros c'. destruct (scanStep_minPt s pt) as [-> ->].
    destruct (lt_maybe _ _ || falsy _).
    + intros E. injection E as <-. split; [|reflexivity].
      apply in_or_app. right. now left.
    + intros E. destruct (Hinv c' E). split; [|assumption].
      apply in_or_app. now left.
Qed.

(** X8. On a collection that is not empty the scan of [getConvexHull]
    copies the points to [ptsArray] in order, and [minPt] and [maxPt] are
    members of the collection whose [x] are [minX] and [maxX]. *)
Theorem findFirstBaseline_members (points : list loc) :
  points <> [] ->
  let s := findFirstBaseline h points in
  ptsArray s = points
  /\ exists mn mx,
       minPt s = Some mn /\ maxPt s = Some mx
       /\ In mn points /\ In mx points
       /\ minX s = Some (h mn).(x) /\ maxX s = Some (h mx).(x).
Proof.
  intros Hne. cbv zeta. split; [apply findFirstBaseline_ptsArray|].
  destruct (findFirstBaseline_defined h points Hne) as (mn & mx & Hmn & Hmx).
  exists mn, mx.
  destruct (scan_max_member points scanInit []) with (c := mx)
    as [Imx Xmx]; [intros c E; discriminate E|exact Hmx|].
  destruct (scan_min_member points scanInit []) with (c := mn)
    as [Imn Xmn]; [intros c E; discriminate E|exact Hmn|].
  simpl in Imx, Imn. auto 10.
Qed.

Lemma truthyX_not_falsy (p : loc) :
  truthyX h p = true -> falsy (Some (h p).(x)) = false.
Proof. unfold truthyX. now destruct (falsy _). Qed.

Lemma truthyX_not_nan (p : loc) :
  truthyX h p = true -> is_nan (h p).(x) = false.
Proof.
  intros H. apply truthyX_not_falsy in H. simpl in H.
  now apply orb_false_elim in H.
Qed.

Lemma scan_max_best (pts : list loc) :
  forall s : Scan,
    (forall p, In p pts -> truthyX h p = true) ->
    match maxPt s with
    | None => maxX s = None
    | Some c => maxX s = Some (h c).(x) /\ truthyX h c = true
    end ->
    maxPt (fold_left (scanStep h) pts s)
    = bestLoop greater (fun p => (h p).(x)) pts (maxPt s).
Proof.
  induction pts as [|pt rest IH]; intros s Htr Hinv; simpl; [reflexivity|].
  assert (Hpt : truthyX h pt = true) by (apply Htr; now left).
  assert (Hrest : forall p, In p rest -> truthyX h p = true)
    by (intros; apply Htr; now right).
  destruct (scanStep_maxPt s pt) as [EP EX].
  rewrite (IH _ Hrest); rewrite EP, ?EX; clear EP EX.
  - destruct (maxPt s) as [c|].
    + destruct Hinv as [-> Hc].
      rewrite (truthyX_not_falsy c Hc), orb_false_r.
      unfold greater, gt_maybe. simpl. now destruct (_ <? _).
    + now rewrite Hinv.
  - destruct (maxPt s) as [c|].
    + destruct Hinv as [-> Hc].
      destruct (gt_maybe _ _ || falsy _); lazy beta iota;
        (split; [reflexivity|assumption]).
    + rewrite Hinv. simpl. split; [reflexivity|assumption].
Qed.

Lemma scan_min_best (pts : list loc) :
  forall s : Scan,
    (forall p, In p pts -> truthyX h p = true) ->
    match minPt s with
    | None => minX s = None
    | Some c => minX s = Some (h c).(x) /\ truthyX h c = true
    end ->
    minPt (fold_left (scanStep h) pts s)
    = bestLoop smaller (fun p => (h p).(x)) pts (minPt s).
Proof.
  induction pts as [|pt rest IH]; intros s Htr Hinv; simpl; [reflexivity|].
  assert (Hpt : truthyX h pt = true) by (apply Htr; now left).
  assert (Hrest : forall p, In p rest -> truthyX h p = true)
    by (intros; apply Htr; now right).
  destruct (scanStep_minPt s pt) as [EP EX].
  rewrite (IH _ Hrest); rewrite EP, ?EX; clear EP EX.
  - destruct (minPt s) as [c|].
    + destruct Hinv as [-> Hc].
      rewrite (truthyX_not_falsy c Hc), orb_false_r.
      unfold smaller, lt_maybe. simpl. now destruct (_ <? _).
    + now rewrite Hinv.
  - destruct (minPt s) as [c|].
    + destruct Hinv as [-> Hc].
      destruct (lt_maybe _ _ || falsy _); lazy beta iota;
        (split; [reflexivity|assumption]).
    + rewrite Hinv. simpl. split; [reflexivity|assumption].
Qed.

(** X9. When no point has [x] equal to [0] or [NaN], the scan selects the
    extremes: no point has a greater [x] than [maxPt] or a smaller [x] than
    [minPt], and every point before [maxPt] (before [minPt]) has a strictly
    smaller (greater) [x], so of tied points the first wins. *)
Theorem findFirstBaseline_extremes (points : list loc) (mn mx : loc) :
  (forall p, In p points -> truthyX h p = true) ->
  minPt (findFirstBaseline h points) = Some mn ->
  maxPt (findFirstBaseline h points) = Some mx ->
  (forall p, In p points -> ((h mx).(x) <? (h p).(x)) = false)
  /\ (forall p, In p points -> ((h p).(x) <? (h mn).(x)) = false)
  /\ (exists pre post, points = pre ++ mx :: post
        /\ forall q, In q pre -> ((h q).(x) <? (h mx).(x)) = true)
  /\ (exists pre post, points = pre ++ mn :: post
        /\ forall q, In q pre -> ((h mn).(x) <? (h q).(x)) = true).
Proof.
  intros Htr. unfold findFirstBaseline.
  rewrite (scan_min_best points scanInit Htr eq_refl).
  rewrite (scan_max_best points scanInit Htr eq_refl).
  cbn [minPt maxPt scanInit]. intros Hmn Hmx.
  assert (Hnan : forall a, In a points -> is_nan (h a).(x) = false)
    by (intros; now apply truthyX_not_nan, Htr).
  split; [|split; [|split]].
  - apply (bestLoop_optimal_none _ greater (fun p => (h p).(x))
             greater_irrefl greater_trans _ mx Hmx).
  - apply (bestLoop_optimal_none _ smaller (fun p => (h p).(x))
             smaller_irrefl smaller_trans _ mn Hmn).
  - apply (bestLoop_first_none _ greater (fun p => (h p).(x))
             greater_trans greater_mixed _ mx Hnan Hmx).
  - apply (bestLoop_first_none _ smaller (fun p => (h p).(x))
             smaller_trans smaller_mixed _ mn Hnan Hmn).
Qed.

End ScanMore.

(** ** Symmetries of the geometric primitives *)

Section SwapFacts.

Variables prec emax : Z.

(** [b - a] is the opposite of [a - b], or both are zeros. *)
Lemma SFsub_swap_zero (a b : spec_float) :
  SFsub prec emax b a = SFopp (SFsub prec emax a b)
  \/ (exists s s', SFsub prec emax a b = S754_zero s
                   /\ SFsub prec emax b a = S754_zero s').
Proof.
  destruct a as [sa| sa| |sa ma ea], b as [sb| sb| |sb mb eb]; simpl;
    try (auto; fail);
    try (destruct sa; simpl; eauto; fail);
    try (destruct sb; simpl; eauto; fail);
    try (destruct sa, sb; simpl; eauto; fail).
  replace (IntDef.Z.min eb ea) with (IntDef.Z.min ea eb)
    by apply Z.min_comm.
  set (X := cond_Zopp sa _). set (Y := cond_Zopp sb _).
  destruct (Z.eq_dec (X - Y) 0) as [E|E].
  - right. replace (IntDef.Z.sub Y X) with 0%Z by (change (0 = Y - X)%Z; lia).
    replace (IntDef.Z.sub X Y) with 0%Z by (change (0 = X - Y)%Z; lia).
    simpl. eauto.
  - left.
    replace (IntDef.Z.sub Y X) with (Z.opp (IntDef.Z.sub X Y))
      by (change (- (X - Y) = Y - X)%Z; lia).
    apply binary_normalize_opp; assumption.
Qed.

Lemma SFopp_involutive (z : spec_float) : SFopp (SFopp z) = z.
Proof. destruct z; simpl; rewrite ?negb_involutive; reflexivity. Qed.

Lemma SFmul_opp_opp (z : spec_float) :
  SFmul prec emax (SFopp z) (SFopp z) = SFmul prec emax z z.
Proof.
  rewrite SFmul_opp_l, (SFmul_comm prec emax z (SFopp z)), SFmul_opp_l.
  apply SFopp_involutive.
Qed.

(** The square of [a - b] is the square of [b - a]. *)
Lemma SFsqr_swap (a b : spec_float) :
  SFmul prec emax (SFsub prec emax a b) (SFsub prec emax a b)
  = SFmul prec emax (SFsub prec emax b a) (SFsub prec emax b a).
Proof.
  destruct (SFsub_swap_zero a b) as [E|(s & s' & E1 & E2)].
  - rewrite E, SFmul_opp_opp. reflexivity.
  - rewrite E1, E2. simpl. now rewrite !xorb_nilpotent.
Qed.

Lemma SFeqb_opp_zero (z : spec_float) (s : bool) :
  SFeqb (SFopp z) (S754_zero s) = SFeqb z (S754_zero s).
Proof. destruct z as [sz|sz| |sz m e]; try destruct sz; reflexivity. Qed.

(** [q - p] is zero exactly when [p - q] is. *)
Lemma SFsub_swap_eqb_zero (p q : spec_float) (s : bool) :
  SFeqb (SFsub prec emax q p) (S754_zero s)
  = SFeqb (SFsub prec emax p q) (S754_zero s).
Proof.
  destruct (SFsub_swap_zero p q) as [E|(s1 & s2 & E1 & E2)].
  - rewrite E. apply SFeqb_opp_zero.
  - rewrite E1, E2. reflexivity.
Qed.

End SwapFacts.

(** X10. [dist2] is symmetric, bit for bit: the squared distance from [p]
    to [q] is the squared distance from [q] to [p], also when it overflows
    or is [NaN]. *)
Theorem dist2_symmetric (p q : Point) : dist2 p q = dist2 q p.
Proof.
  apply Prim2SF_inj. unfold dist2, sqr.
  rewrite !add_spec, !mul_spec, !sub_spec. unfold SF64mul, SF64sub.
  rewrite (SFsqr_swap prec emax (Prim2SF (x p)) (Prim2SF (x q))).
  rewrite (SFsqr_swap prec emax (Prim2SF (y p)) (Prim2SF (y q))).
  reflexivity.
Qed.

Lemma checkLineIntersection_null (l1s l1e l2s l2e : Point) :
  checkLineIntersection l1s l1e l2s l2e = noIntersection
  <-> (denominator l1s l1e l2s l2e =? 0) = true.
Proof.
  unfold checkLineIntersection.
  destruct (denominator l1s l1e l2s l2e =? 0); split; intros H;
    try reflexivity; discriminate.
Qed.

(** X11. The test for parallel lines does not depend on the order of the
    two lines: [checkLineIntersection] finds no intersection of line 1 with
    line 2 exactly when it finds none of line 2 with line 1. *)
Theorem parallel_test_symmetric (line1Start line1End line2Start line2End : Point) :
  (denominator line1Start line1End line2Start line2End =? 0)
  = (denominator line2Start line2End line1Start line1End =? 0)
  /\ (checkLineIntersection line1Start line1End line2Start line2End
      = noIntersection
      <-> checkLineIntersection line2Start line2End line1Start line1End
          = noIntersection).
Proof.
  assert (E : (denominator line1Start line1End line2Start line2End =? 0)
              = (denominator line2Start line2End line1Start line1End =? 0)).
  { unfold denominator. rewrite !eqb_spec, !sub_spec, !mul_spec, !sub_spec.
    unfold SF64sub, SF64mul.
    rewrite (SFmul_comm prec emax
               (SFsub prec emax (Prim2SF (y line1End)) (Prim2SF (y line1Start)))).
    rewrite (SFmul_comm prec emax
               (SFsub prec emax (Prim2SF (x line1End)) (Prim2SF (x line1Start)))).
    symmetry. apply SFsub_swap_eqb_zero. }
  split; [exact E|]. rewrite !checkLineIntersection_null, E. tauto.
Qed.

(** ** The searches of [displacePoints] *)

Section SearchMore.

Variable h : store.

Lemma findMostDistantFromLineLoop_best (linePt1 linePt2 : Point)
    (pts : list loc) :
  forall maxD mp,
    match mp with
    | None => maxD = 0
    | Some c => maxD = lineDistance linePt1 linePt2 (h c)
    end ->
    findMostDistantFromLineLoop h linePt1 linePt2 pts maxD mp
    = bestLoop greater (fun p => lineDistance linePt1 linePt2 (h p))
        (filter (fun p => 0 <? lineDistance linePt1 linePt2 (h p)) pts) mp.
Proof.
  induction pts as [|pt rest IH]; intros maxD mp Hinv; simpl; [reflexivity|].
  fold (lineDistance linePt1 linePt2 (h pt)).
  destruct (0 <? lineDistance linePt1 linePt2 (h pt)) eqn:Epos; simpl.
  - destruct mp as [c|]; subst maxD.
    + unfold greater at 1.
      destruct (lineDistance linePt1 linePt2 (h c)
                <? lineDistance linePt1 linePt2 (h pt));
        apply IH; reflexivity.
    + rewrite Epos. apply IH. reflexivity.
  - apply IH. exact Hinv.
Qed.

Lemma findMostDistantPointFromLine_none (linePt1 linePt2 : Point)
    (convexHull : list Edge) :
  findMostDistantPointFromLine h linePt1 linePt2 convexHull = None
  <-> forall p, In p (endpoints convexHull) ->
        (0 <? lineDistance linePt1 linePt2 (h p)) = false.
Proof.
  unfold findMostDistantPointFromLine.
  rewrite findMostDistantFromLineLoop_best by reflexivity.
  rewrite bestLoop_none. split.
  - intros [Hnil _] p Hp.
    destruct (0 <? lineDistance linePt1 linePt2 (h p)) eqn:E; [|reflexivity].
    assert (Hin : In p (filter
                          (fun p => 0 <? lineDistance linePt1 linePt2 (h p))
                          (endpoints convexHull)))
      by (apply filter_In; auto).
    rewrite Hnil in Hin. contradiction.
  - intros Hall. split; [|reflexivity].
    induction (endpoints convexHull) as [|a l IH]; [reflexivity|].
    simpl. rewrite (Hall a) by now left.
    apply IH. intros p Hp. apply Hall. now right.
Qed.

(** X12. [findMostDistantPointFromLine] returns [null] exactly when no end
    of an edge is at a positive distance from the line; otherwise it returns
    an end of an edge at a positive distance that no other end exceeds, the
    first such end in the order of the hull. *)
Theorem findMostDistantPointFromLine_greatest (linePt1 linePt2 : Point)
    (convexHull : list Edge) :
  (findMostDistantPointFromLine h linePt1 linePt2 convexHull = None
   <-> forall p, In p (endpoints convexHull) ->
         (0 <? lineDistance linePt1 linePt2 (h p)) = false)
  /\ forall m,
       findMostDistantPointFromLine h linePt1 linePt2 convexHull = Some m ->
       In m (endpoints convexHull)
       /\ (0 <? lineDistance linePt1 linePt2 (h m)) = true
       /\ (forall p, In p (endpoints convexHull) ->
             (lineDistance linePt1 linePt2 (h m)
              <? lineDistance linePt1 linePt2 (h p)) = false)
       /\ exists pre post,
            filter (fun p => 0 <? lineDistance linePt1 linePt2 (h p))
              (endpoints convexHull)
            = pre ++ m :: post
            /\ forall q, In q pre ->
                 (lineDistance linePt1 linePt2 (h q)
                  <? lineDistance linePt1 linePt2 (h m)) = true.
Proof.
  pose proof (findMostDistantPointFromLine_none linePt1 linePt2 convexHull)
    as Hnone.
  revert Hnone. unfold findMostDistantPointFromLine.
  rewrite findMostDistantFromLineLoop_best by reflexivity. intros Hnone.
  pose (d := fun p => lineDistance linePt1 linePt2 (h p)).
  change (fun p => lineDistance linePt1 linePt2 (h p)) with d.
  split; [exact Hnone|]. clear Hnone.
  change (fun p => 0 <? lineDistance linePt1 linePt2 (h p))
    with (fun p => 0 <? d p).
  - intros m H.
    change (lineDistance linePt1 linePt2 (h m)) with (d m).
    assert (Hm : In m (filter (fun p => 0 <? d p) (endpoints convexHull))).
    { apply bestLoop_member in H. destruct H as [H|H]; [discriminate|exact H]. }
    apply filter_In in Hm. destruct Hm as [Hin Hpos].
    split; [exact Hin|]. split; [exact Hpos|]. split.
    + intros p Hp. change (lineDistance linePt1 linePt2 (h p)) with (d p).
      destruct (0 <? d p) eqn:Ep.
      * apply (bestLoop_optimal_none _ greater d
                 greater_irrefl greater_trans _ m H).
        apply filter_In. auto.
      * destruct (d m <? d p) eqn:E; [|reflexivity].
        rewrite <- Ep. symmetry. rewrite ltb_spec in *.
        eapply SFltb_trans; eassumption.
    + destruct (bestLoop_first_none _ greater d greater_trans greater_mixed
                  (filter (fun p => 0 <? d p) (endpoints convexHull)) m)
        as (pre & post & Hsplit & Hpre); [|exact H|].
      * intros a Ha. apply filter_In in Ha. destruct Ha as [_ Ha].
        now apply ltb_not_nan_r in Ha.
      * exists pre, post. split; [exact Hsplit|exact Hpre].
Qed.

Lemma minDistLoop_best (pt : Point) (es : list Edge) :
  forall (i : nat) (cur : option (nat * Edge)),
    minDistLoop h pt es i
      (option_map (fun c => segmentDistance h pt (snd c)) cur)
      (option_map fst cur)
    = (let best :=
         bestLoop smaller (fun c => segmentDistance h pt (snd c))
           (combine (seq i (length es)) es) cur in
       (option_map (fun c => segmentDistance h pt (snd c)) best,
        option_map fst best)).
Proof.
  induction es as [|e rest IH]; intros i cur; simpl; [reflexivity|].
  fold (segmentDistance h pt e).
  destruct cur as [c|]; simpl.
  - replace (smaller (segmentDistance h pt e) (segmentDistance h pt (snd c)))
      with (segmentDistance h pt e <? segmentDistance h pt (snd c))
      by reflexivity.
    destruct (segmentDistance h pt e <? segmentDistance h pt (snd c)).
    + apply (IH (S i) (Some (i, e))).
    + apply (IH (S i) (Some c)).
  - apply (IH (S i) (Some (i, e))).
Qed.

Lemma combine_seq_nth (es : list Edge) :
  forall (i j : nat) (e : Edge),
    In (j, e) (combine (seq i (length es)) es) ->
    (i <= j)%nat /\ nth_error es (j - i) = Some e.
Proof.
  induction es as [|a rest IH]; intros i j e; simpl; [contradiction|].
  intros [H|H].
  - injection H as <- <-. split; [lia|]. now rewrite Nat.sub_diag.
  - apply IH in H. destruct H as [Hle Hn]. split; [lia|].
    replace (j - i)%nat with (S (j - S i)) by lia. exact Hn.
Qed.

Lemma combine_seq_in (es : list Edge) :
  forall (i : nat) (e : Edge),
    In e es -> exists j, In (j, e) (combine (seq i (length es)) es).
Proof.
  induction es as [|a rest IH]; intros i e; simpl; [contradiction|].
  intros [<-|H].
  - exists i. now left.
  - destruct (IH (S i) e H) as [j Hj]. exists j. now right.
Qed.

Lemma minDistanceVector_some (convexHull : list Edge) (pt : Point) :
  convexHull <> [] ->
  exists d,
    minDistanceVector h convexHull pt = Returns (Some d)
    /\ In (edge d) convexHull
    /\ forall e, In e convexHull ->
         (segmentDistance h pt e <? segmentDistance h pt (edge d)) = false.
Proof.
  intros Hne. unfold minDistanceVector.
  pose proof (minDistLoop_best pt convexHull 0 None) as E.
  cbv beta iota zeta delta [option_map] in E. rewrite E. clear E.
  destruct (bestLoop smaller _ (combine (seq 0 (length convexHull)) convexHull) None)
    as [[j e]|] eqn:Eb.
  - pose proof (bestLoop_member _ _ _ _ _ _ Eb) as Hin.
    destruct Hin as [Hin|Hin]; [discriminate|].
    pose proof Hin as Hnth. apply combine_seq_nth in Hnth.
    destruct Hnth as [_ Hnth]. rewrite Nat.sub_0_r in Hnth.
    simpl. rewrite Hnth. simpl. eexists. split; [reflexivity|].
    simpl. rewrite <- surjective_pairing.
    split; [now apply nth_error_In in Hnth|].
    intros e' He'.
    destruct (combine_seq_in convexHull 0 e' He') as [j' Hj'].
    apply (bestLoop_optimal_none _ smaller
             (fun c : nat * Edge => segmentDistance h pt (snd c))
             smaller_irrefl smaller_trans _ (j, e) Eb (j', e') Hj').
  - apply bestLoop_none in Eb. destruct Eb as [Eb _].
    destruct convexHull; [congruence|discriminate].
Qed.

(** X13. [minDistanceVector] never throws. It returns [null] exactly when
    the hull has no edge; otherwise it returns an edge of the hull such that
    no edge of the hull is strictly nearer to [pt]. *)
Theorem minDistanceVector_nearest_edge (convexHull : list Edge) (pt : Point) :
  (minDistanceVector h convexHull pt = Returns None <-> convexHull = [])
  /\ (convexHull <> [] ->
      exists d,
        minDistanceVector h convexHull pt = Returns (Some d)
        /\ In (edge d) convexHull
        /\ forall e, In e convexHull ->
             (segmentDistance h pt e <? segmentDistance h pt (edge d))
             = false).
Proof.
  split; [|apply minDistanceVector_some].
  split.
  - intros H. destruct convexHull as [|e l]; [reflexivity|].
    destruct (minDistanceVector_some (e :: l) pt) as (d & Hd & _);
      [discriminate|]. congruence.
  - intros ->. reflexivity.
Qed.

Lemma minDistInDirectionLoop_first (convexHull es : list Edge)
    (pt v : Point) (d : Displacement) :
  minDistInDirectionLoop h convexHull es pt v = Returns (Some d) ->
  exists pre post m,
    es = pre ++ edge d :: post
    /\ (forall e, In e pre -> rayCrossesEdge h pt v e = false)
    /\ rayCrossesEdge h pt v (edge d) = true
    /\ findMostDistantPointFromLine h pt (quarterTurn pt v) convexHull
       = Some m
    /\ vector d = {| x := - pt.(x) + (h m).(x); y := - pt.(y) + (h m).(y) |}.
Proof.
  induction es as [|e rest IH]; simpl; [discriminate|].
  fold (quarterTurn pt v).
  destruct (rayCrossesEdge h pt v e) eqn:Ec.
  - destruct (findMostDistantPointFromLine h pt (quarterTurn pt v) convexHull)
      as [m|] eqn:Em; [|discriminate].
    intros H. injection H as <-. simpl.
    exists [], rest, m. rewrite <- surjective_pairing.
    repeat split; auto. contradiction.
  - intros H. destruct (IH H) as (pre & post & m & -> & Hpre & Hc & Hm & Hv).
    exists (e :: pre), post, m. repeat split; auto.
    intros e' [<-|He']; auto.
Qed.

(** X14. [minDistanceVectorInDirection] returns [null] exactly when no edge
    of the hull passes the crossing test. When it returns a result, its edge
    is the first edge of the hull that passes the test, and its vector leads
    from [pt] to the end of an edge that [findMostDistantPointFromLine]
    selects for the line through [pt] at a right angle to [(pt, v)]. *)
Theorem minDistanceVectorInDirection_first_crossing
    (convexHull : list Edge) (pt v : Point) :
  (minDistanceVectorInDirection h convexHull pt v = Returns None
   <-> forall e, In e convexHull -> rayCrossesEdge h pt v e = false)
  /\ forall d,
       minDistanceVectorInDirection h convexHull pt v = Returns (Some d) ->
       exists pre post m,
         convexHull = pre ++ edge d :: post
         /\ (forall e, In e pre -> rayCrossesEdge h pt v e = false)
         /\ rayCrossesEdge h pt v (edge d) = true
         /\ findMostDistantPointFromLine h pt (quarterTurn pt v) convexHull
            = Some m
         /\ vector d
            = {| x := - pt.(x) + (h m).(x); y := - pt.(y) + (h m).(y) |}.
Proof.
  unfold minDistanceVectorInDirection. split.
  - split.
    + intros H e He. destruct (rayCrossesEdge h pt v e) eqn:Ec; [|reflexivity].
      exfalso. exact (minDistInDirectionLoop_some h _ _ _ _ e He Ec H).
    + apply minDistInDirectionLoop_none.
  - intros d. apply minDistInDirectionLoop_first.
Qed.

End SearchMore.

(** ** Signs *)

Lemma SFsign_test (a : spec_float) :
  SFltb a (S754_zero false) || SFleb (S754_zero false) a = notNaN a.
Proof. destruct a as [s|s| |s m e]; try destruct s; reflexivity. Qed.

(** X15. [sameSign] is symmetric, and a number has the same sign as itself
    exactly when it is not [NaN]. *)
Theorem sameSign_symmetric_nan (a b : float) :
  sameSign a b = sameSign b a /\ sameSign a a = negb (is_nan a).
Proof.
  unfold sameSign. split.
  - rewrite (andb_comm (a <? 0)), (andb_comm (0 <=? a)). reflexivity.
  - rewrite !andb_diag, ltb_spec, leb_spec.
    change (Prim2SF 0) with (S754_zero false). rewrite SFsign_test.
    destruct (is_nan a) eqn:E.
    + destruct (notNaN (Prim2SF a)) eqn:N; [|reflexivity].
      apply notNaN_is_nan in N. congruence.
    + now rewrite (is_nan_notNaN a E).
Qed.

(** ** Distances are never negative *)

Section SignFacts.

Variables prec emax : Z.

Lemma SFmul_self_sign (a : spec_float) :
  SFmul prec emax a a = S754_nan
  \/ signedAs false (SFmul prec emax a a) = true.
Proof.
  destruct (notNaN a) eqn:E.
  - right. now apply SFmul_self_nonneg.
  - left. destruct a; try discriminate. reflexivity.
Qed.

Lemma SFadd_sign (u v : spec_float) :
  u = S754_nan \/ signedAs false u = true ->
  v = S754_nan \/ signedAs false v = true ->
  SFadd prec emax u v = S754_nan
  \/ signedAs false (SFadd prec emax u v) = true.
Proof.
  intros [->|Hu] [->|Hv]; try (left; reflexivity).
  - left. now destruct u.
  - right. now apply SFadd_nonneg.
Qed.

Lemma SFsqrt_sign (z : spec_float) :
  z = S754_nan \/ signedAs false z = true ->
  SFsqrt prec emax z = S754_nan
  \/ signedAs false (SFsqrt prec emax z) = true.
Proof.
  intros [->|H]; [left; reflexivity|right].
  destruct z as [s|s| |s m e]; simpl in *; try discriminate;
    destruct s; try discriminate; try reflexivity.
  unfold SFsqrt_core_binary.
  set (m' := match Z.sub e _ with Zpos _ => _ | Z0 => _ | Zneg _ => _ end).
  assert (Hm' : (0 <= m')%Z).
  { subst m'. destruct (Z.sub e _); try lia.
    apply Z.shiftl_nonneg. lia. }
  pose proof (Z.sqrtrem_spec m' Hm') as Hs.
  change (IntDef.Z.sqrtrem m') with (Z.sqrtrem m').
  destruct (Z.sqrtrem m') as [q r].
  apply binary_round_aux_signed. lia.
Qed.

Lemma SFltb_sign_zero (z : spec_float) :
  z = S754_nan \/ signedAs false z = true ->
  SFltb z (S754_zero false) = false.
Proof.
  intros [->|H]; [reflexivity|].
  destruct z as [s|s| |s m e]; simpl in H; try discriminate;
    destruct s; try discriminate; reflexivity.
Qed.

End SignFacts.

Lemma dist2_sign (p q : Point) :
  Prim2SF (dist2 p q) = S754_nan
  \/ signedAs false (Prim2SF (dist2 p q)) = true.
Proof.
  unfold dist2, sqr. rewrite add_spec, !mul_spec.
  apply SFadd_sign; apply SFmul_self_sign.
Qed.

(** X16. A distance to a segment is never negative, on any input: the
    tests [distToSegmentSquared(...) < 0] and [distToSegment(...) < 0] are
    false (the value is a number with a plus sign, or [NaN]). *)
Theorem distToSegment_never_negative (pt v1 v2 : Point) :
  (distToSegmentSquared pt v1 v2 <? 0) = false
  /\ (distToSegment pt v1 v2 <? 0) = false.
Proof.
  assert (H : Prim2SF (distToSegmentSquared pt v1 v2) = S754_nan
              \/ signedAs false (Prim2SF (distToSegmentSquared pt v1 v2))
                 = true).
  { unfold distToSegmentSquared.
    destruct (dist2 v1 v2 =? 0); [apply dist2_sign|].
    destruct (_ <? 0); [apply dist2_sign|].
    destruct (1 <? _); apply dist2_sign. }
  split.
  - rewrite ltb_spec. now apply SFltb_sign_zero.
  - unfold distToSegment. rewrite ltb_spec, sqrt_spec.
    apply SFltb_sign_zero. now apply SFsqrt_sign.
Qed.

(** ** The displacement loop and the errors past the guard *)

(** X17. The loop of [displacePoints] moves an object once for each time it
    occurs in [ptsToDisplace]: an object listed [k] times has [(dx, dy)]
    added to it [k] times, an object that is not listed is left alone. *)
Theorem displaceAll_per_occurrence (dx dy : float) (pts : list loc) :
  forall (h : store) (l : loc),
    displaceAll dx dy pts h l
    = addTimes (count_occ Nat.eq_dec pts l) dx dy (h l).
Proof.
  unfold displaceAll.
  induction pts as [|a pts IH]; intros h l; simpl; [reflexivity|].
  rewrite IH. unfold translate.
  destruct (Nat.eq_dec a l) as [->|Hne]; simpl.
  - now rewrite upd_same.
  - rewrite upd_other by congruence. reflexivity.
Qed.

(** X18. Whatever the two hulls are, a call that returns has changed no
    object other than the members of [ptsToDisplace]. *)
Theorem displaceFromHulls_only_members_move (h h' : store)
    (chFixed chDisplace : list Edge) (ptsToDisplace : list loc)
    (padding : option float) (pt1 pt2 : option Point) :
  displaceFromHulls h chFixed chDisplace ptsToDisplace padding pt1 pt2
  = Returns h' ->
  forall l, ~ In l ptsToDisplace -> h' l = h l.
Proof.
  unfold displaceFromHulls.
  destruct (_ || _).
  - intros H l _. now injection H as <-.
  - destruct (displacementOf h chFixed chDisplace padding pt1 pt2)
      as [[dx dy]| |]; simpl; intros H l Hnot; try discriminate.
    injection H as <-. now apply displaceAll_frame.
Qed.

(** X19. Past the guard, with [pt2] given: when no edge of [chFixed] passes
    the crossing test for the ray from the reference point through [pt2],
    the search returns [null] and reading its [vector] throws. *)
Theorem displaceFromHulls_missed_ray_throws (h : store)
    (chFixed chDisplace : list Edge) (ptsToDisplace : list loc)
    (padding : option float) (pt1 : option Point) (v : Point) :
  (3 <= length chFixed)%nat -> (3 <= length chDisplace)%nat ->
  (forall e, In e chFixed ->
     rayCrossesEdge h (referencePoint h chFixed pt1) v e = false) ->
  displaceFromHulls h chFixed chDisplace ptsToDisplace padding pt1 (Some v)
  = Throws TypeError.
Proof.
  intros HF HD Hmiss. unfold displaceFromHulls.
  replace (length chFixed <? 3)%nat with false
    by (symmetry; apply Nat.ltb_ge; exact HF).
  replace (length chDisplace <? 3)%nat with false
    by (symmetry; apply Nat.ltb_ge; exact HD).
  unfold displacementOf. fold (referencePoint h chFixed pt1).
  unfold minDistanceVectorInDirection.
  rewrite (minDistInDirectionLoop_none h chFixed chFixed _ v Hmiss).
  reflexivity.
Qed.

(** X20. Past the guard, with [pt2] omitted, the nearest-edge search finds
    an edge; when no end of an edge of [chDisplace] is at a positive
    distance from the separating line through the separating point,
    [farthestPoint] is [null] and reading [farthestPoint.x] throws. *)
Theorem displaceFromHulls_apart_throws (h : store)
    (chFixed chDisplace : list Edge) (ptsToDisplace : list loc)
    (padding : option float) (pt1 : option Point) :
  (3 <= length chFixed)%nat -> (3 <= length chDisplace)%nat ->
  exists d,
    minDistanceVector h chFixed (referencePoint h chFixed pt1)
    = Returns (Some d)
    /\ let p := referencePoint h chFixed pt1 in
       let separatingPoint :=
         {| x := p.(x) + d.(vector).(x); y := p.(y) + d.(vector).(y) |} in
       (forall q, In q (endpoints chDisplace) ->
          (0 <? lineDistance separatingPoint
                  {| x := separatingPoint.(x) + (separatingAxis h d).(x);
                     y := separatingPoint.(y) + (separatingAxis h d).(y) |}
                  (h q)) = false) ->
       displaceFromHulls h chFixed chDisplace ptsToDisplace padding pt1 None
       = Throws TypeError.
Proof.
  intros HF HD.
  destruct (minDistanceVector_some h chFixed (referencePoint h chFixed pt1))
    as (d & Hmin & _).
  { destruct chFixed; [simpl in HF; lia|discriminate]. }
  exists d. split; [exact Hmin|]. cbv zeta. intros Hnone.
  unfold displaceFromHulls.
  replace (length chFixed <? 3)%nat with false
    by (symmetry; apply Nat.ltb_ge; exact HF).
  replace (length chDisplace <? 3)%nat with false
    by (symmetry; apply Nat.ltb_ge; exact HD).
  unfold displacementOf. fold (referencePoint h chFixed pt1).
  rewrite Hmin. simpl.
  match goal with
  | |- context [findMostDistantPointFromLine h ?a ?b chDisplace] =>
      destruct (findMostDistantPointFromLine_none h a b chDisplace)
        as [_ Hnull]
  end.
  simpl in Hnull. rewrite (Hnull Hnone). reflexivity.
Qed.

(** ** Instances *)

(** X3 on the triangle: the apex [2] over the base line [(0, 1)]. *)
Lemma maxPoint_first_greatest_witness :
  (forall p, In p [0; 1; 2]%nat ->
     (baseLineDistance triangleHeap (0, 1)%nat 2%nat
      <? baseLineDistance triangleHeap (0, 1)%nat p) = false)
  /\ exists pre post,
       newPoints (findMostDistantPointFromBaseLine triangleHeap (0, 1)%nat
                    [0; 1; 2]%nat)
       = pre ++ 2%nat :: post
       /\ forall q, In q pre ->
            (baseLineDistance triangleHeap (0, 1)%nat q
             <? baseLineDistance triangleHeap (0, 1)%nat 2%nat) = true.
Proof.
  apply (maxPoint_first_greatest triangleHeap (0, 1)%nat [0; 1; 2]%nat 2%nat).
  vm_compute. reflexivity.
Defined.

(** X5 on the outer square, from corner [0] to corner [1]. *)
Lemma buildConvexHull_chain_witness :
  [(0, 3); (3, 2); (2, 1)]%nat <> []
  /\ pathFrom 0%nat [(0, 3); (3, 2); (2, 1)]%nat = Some 1%nat.
Proof.
  apply (buildConvexHull_chain nestedHeap 5 (0, 1)%nat [0; 1; 2; 3]%nat).
  vm_compute. reflexivity.
Defined.

(** X6 on the outer square: the end [3] of the edge [(0, 3)]. *)
Lemma buildConvexHull_vertices_witness :
  3%nat = fst (0, 1)%nat \/ 3%nat = snd (0, 1)%nat
  \/ (In 3%nat [0; 1; 2; 3]%nat /\ outside nestedHeap (0, 1)%nat 3%nat = true).
Proof.
  apply (buildConvexHull_vertices nestedHeap 5 (0, 1)%nat [0; 1; 2; 3]%nat
           [(0, 3); (3, 2); (2, 1)]%nat) with (e := (0, 3)%nat).
  - vm_compute. reflexivity.
  - simpl. auto.
  - simpl. auto.
Defined.

(** X8 on the triangle. *)
Lemma findFirstBaseline_members_witness :
  ptsArray (findFirstBaseline triangleHeap [0; 1; 2]%nat) = [0; 1; 2]%nat
  /\ exists mn mx,
       minPt (findFirstBaseline triangleHeap [0; 1; 2]%nat) = Some mn
       /\ maxPt (findFirstBaseline triangleHeap [0; 1; 2]%nat) = Some mx
       /\ In mn [0; 1; 2]%nat /\ In mx [0; 1; 2]%nat
       /\ minX (findFirstBaseline triangleHeap [0; 1; 2]%nat)
          = Some (triangleHeap mn).(x)
       /\ maxX (findFirstBaseline triangleHeap [0; 1; 2]%nat)
          = Some (triangleHeap mx).(x).
Proof.
  apply (findFirstBaseline_members triangleHeap [0; 1; 2]%nat).
  discriminate.
Defined.

(** X9 on the triangle, whose [x] are [1], [3] and [2]. *)
Lemma findFirstBaseline_extremes_witness :
  (forall p, In p [0; 1; 2]%nat ->
     ((triangleHeap 1%nat).(x) <? (triangleHeap p).(x)) = false)
  /\ (forall p, In p [0; 1; 2]%nat ->
        ((triangleHeap p).(x) <? (triangleHeap 0%nat).(x)) = false)
  /\ (exists pre post, [0; 1; 2]%nat = pre ++ 1%nat :: post
        /\ forall q, In q pre ->
             ((triangleHeap q).(x) <? (triangleHeap 1%nat).(x)) = true)
  /\ (exists pre post, [0; 1; 2]%nat = pre ++ 0%nat :: post
        /\ forall q, In q pre ->
             ((triangleHeap 0%nat).(x) <? (triangleHeap q).(x)) = true).
Proof.
  apply (findFirstBaseline_extremes triangleHeap [0; 1; 2]%nat 0%nat 1%nat).
  - intros p Hp. simpl in Hp.
    destruct Hp as [<-|[<-|[<-|[]]]]; vm_compute; reflexivity.
  - vm_compute. reflexivity.
  - vm_compute. reflexivity.
Defined.

(** X7 on the outer square. *)
Lemma buildConvexHull_closed_chain_witness :
  pathFrom 0%nat [(0, 3); (3, 2); (2, 1)]%nat = Some 1%nat
  /\ pathFrom 0%nat ([(0, 3); (3, 2); (2, 1)] ++ [(1, 0)])%nat = Some 0%nat.
Proof.
  apply (buildConvexHull_closed_chain nestedHeap 5 0%nat 1%nat
           [0; 1; 2; 3]%nat);
    vm_compute; reflexivity.
Defined.

(** X18 on the nested squares: the corner [0] of the outer square stays
    where it is when the inner square moves. *)
Lemma displaceFromHulls_only_members_move_witness :
  displaceAll 0 (-4) [4; 5; 6; 7]%nat nestedHeap 0%nat = nestedHeap 0%nat.
Proof.
  apply (displaceFromHulls_only_members_move nestedHeap
           (displaceAll 0 (-4) [4; 5; 6; 7]%nat nestedHeap)
           outerEdges innerEdges [4; 5; 6; 7]%nat (Some 1)
           (Some {| x := 3; y := 2 |}) None).
  - vm_compute. reflexivity.
  - simpl. intros H. decompose [or] H; discriminate || assumption.
Defined.

(** X19 on the nested squares, with a ray that starts outside the outer
    square and points away from it. *)
Lemma displaceFromHulls_missed_ray_throws_witness :
  displaceFromHulls nestedHeap outerEdges innerEdges [4; 5; 6; 7]%nat (Some 1)
    (Some {| x := 7; y := 7 |}) (Some {| x := 8; y := 9 |})
  = Throws TypeError.
Proof.
  apply (displaceFromHulls_missed_ray_throws nestedHeap outerEdges innerEdges
           [4; 5; 6; 7]%nat (Some 1) (Some {| x := 7; y := 7 |})
           {| x := 8; y := 9 |}).
  - simpl. lia.
  - simpl. lia.
  - intros e He. simpl in He.
    destruct He as [<-|[<-|[<-|[<-|[]]]]]; vm_compute; reflexivity.
Defined.

(** X20 on a square and a smaller square that lies below it. *)
Lemma displaceFromHulls_apart_throws_witness :
  exists d,
    minDistanceVector apartHeap outerEdges {| x := 3; y := 2 |}
    = Returns (Some d)
    /\ displaceFromHulls apartHeap outerEdges innerEdges [4; 5; 6; 7]%nat
         None (Some {| x := 3; y := 2 |}) None
       = Throws TypeError.
Proof.
  destruct (displaceFromHulls_apart_throws apartHeap outerEdges innerEdges
              [4; 5; 6; 7]%nat None (Some {| x := 3; y := 2 |}))
    as (d & Hmin & Hthrows).
  - simpl. lia.
  - simpl. lia.
  - exists d. split; [exact Hmin|]. apply Hthrows.
    assert (Ed : d = {| vector := {| x := 0; y := -1 |};
                        edge := (1, 0)%nat |}).
    { assert (E : Returns (Some d)
                  = Returns (Some {| vector := {| x := 0; y := -1 |};
                                     edge := (1, 0)%nat |}))
        by (rewrite <- Hmin; vm_compute; reflexivity).
      now injection E. }
    subst d. intros q Hq. simpl in Hq.
    decompose [or] Hq; subst; try contradiction; vm_compute; reflexivity.
Defined.
